(** * redo.py: the command retry executor

    A shallow embedding of [src/redo.py] (functions [evaluate_condition],
    [execute_command] and [main]) together with the properties of its
    specification.

    Conventions of the model.
    - Python [float] durations (delay, max_delay, jitter, timeout) are finite
      and are exact rationals [Q]; [inf] and [nan] are left out. Where a
      float operation of the source raises, the model raises: the conversion
      of [2 ** (attempt - 1)] to a float is an OverflowError from attempt
      1025 on, and [time.sleep] raises ValueError for a negative length and
      OverflowError for a length over its limit. Rounding is not modelled: a
      sum with jitter is exact here, so the theorems that give the length of
      a sleep are stated for runs without jitter, where the source computes
      products by powers of two and a minimum; with jitter only the bounds
      that rounding cannot break are used ([accepted_delays]).
    - The operating system is an oracle: [proc n command timeout] is what the
      [n]-th call of [subprocess.run] does (it completes, or raises an
      exception), and [rnd n] is the [n]-th value of [random.random()].
    - Everything the program does to the outside is recorded, in order, in a
      log of [Event]s: the [subprocess.run] calls, the lines printed, the
      sleeps, and the effects of evaluating the condition. Printing does not
      fail.
    - Exceptions are values: a computation returns [Normal a] or [Raise e].
      [except Exception] catches the exceptions that are [Exception]s and
      lets the others through ([SystemExit]; [is_Exception]).
    - Python's [eval] is a parameter of the orchestrator ([py_eval]). It is
      given the state of the interpreter it runs in ([Context]): the locals
      of [execute_command], which evaluated code can reach through the
      frames of its callers, and the random generator, from which it can
      take values. It returns a value or raises, with a list of effects
      (lines printed, values drawn); an expression that rebinds what the
      program uses afterwards ([time.sleep], [print], the locals of a frame)
      is outside the model.
      The facts about the loop hold for every such [eval]. Module [Py] gives
      the instance used for concrete conditions: a lexer, a parser and an
      evaluator for a fragment of Python's expression language. *)

From Stdlib Require Import ZArith QArith Qminmax Qpower Lqa Lia.
From Stdlib Require Import Bool List String Ascii.
Import ListNotations.

Local Open Scope string_scope.
Local Open Scope list_scope.
Local Open Scope Z_scope.

(** ** Python values, exceptions and expressions *)

Module Py.

(** The values of the fragment. [VBuiltin] is a builtin function object. *)
Inductive value : Type :=
| VNone
| VBool (b : bool)
| VInt (z : Z)
| VStr (s : string)
| VBuiltin (name : string).

(** Exceptions. All of them are subclasses of [Exception] except
    [SystemExit], which [exit(code)] raises and which carries the exit code.
    [TimeoutExpired] is [subprocess.TimeoutExpired]; [OSError] stands for the
    errors of spawning a process (FileNotFoundError, PermissionError, ...);
    [OverflowError] is raised when an int is too large for a float, and by
    [time.sleep] for a length that is too large. *)
Inductive exn : Type :=
| SyntaxError
| NameError (name : string)
| AttributeError (attr : string)
| TypeError
| ValueError
| TimeoutExpired
| OSError (msg : string)
| OverflowError
| SystemExit (code : value).

(** [isinstance(e, Exception)]: what [except Exception] catches. *)
Definition is_Exception (e : exn) : bool :=
  match e with
  | SystemExit _ => false
  | _ => true
  end.

(** What an evaluation can do besides returning: call [print], and take a
    value from the generator of the module [random]. *)
Inductive effect : Type :=
| EffPrint (args : list value)
| EffRandom.

Inductive cmpop : Type := Eq_ | NotEq | Lt_ | LtE | Gt_ | GtE | In_ | NotIn.
Inductive boolop : Type := And | Or.

#[local] Set Warnings "-register-all".

(** Expressions, shaped as Python's [ast]: [ECompare left [(op, e); ...]] is a
    comparison chain, [ECall f args] a call with positional arguments. *)
Inductive expr : Type :=
| EName (id : string)
| EConst (v : value)
| EAttr (e : expr) (attr : string)
| ENot (e : expr)
| EBoolOp (op : boolop) (l r : expr)
| ECompare (l : expr) (rest : list (cmpop * expr))
| ECall (f : expr) (args : list expr).

(** Truth value testing ([bool(v)]). *)
Definition truthy (v : value) : bool :=
  match v with
  | VNone => false
  | VBool b => b
  | VInt z => negb (z =? 0)
  | VStr s => negb (String.eqb s EmptyString)
  | VBuiltin _ => true
  end.

(** [bool] is a subclass of [int]: [True] is 1 and [False] is 0. *)
Definition as_int (v : value) : option Z :=
  match v with
  | VInt z => Some z
  | VBool b => Some (if b then 1 else 0)
  | _ => None
  end.

Definition value_eq (a b : value) : bool :=
  match as_int a, as_int b with
  | Some x, Some y => x =? y
  | _, _ =>
      match a, b with
      | VNone, VNone => true
      | VStr s, VStr t => String.eqb s t
      | VBuiltin f, VBuiltin g => String.eqb f g
      | _, _ => false
      end
  end.

(** [sub in s] for strings. *)
Fixpoint is_substring (sub s : string) : bool :=
  String.prefix sub s
  || match s with
     | EmptyString => false
     | String _ s' => is_substring sub s'
     end.

(** Ordering comparisons: numbers with numbers, strings with strings (by code
    point); anything else is a TypeError. *)
Definition order (num : Z -> Z -> bool) (str : comparison -> bool)
    (a b : value) : value + exn :=
  match as_int a, as_int b with
  | Some x, Some y => inl (VBool (num x y))
  | _, _ =>
      match a, b with
      | VStr s, VStr t => inl (VBool (str (String.compare s t)))
      | _, _ => inr TypeError
      end
  end.

Definition contains (a b : value) : bool + exn :=
  match b with
  | VStr s =>
      match a with
      | VStr sub => inl (is_substring sub s)
      | _ => inr TypeError
      end
  | _ => inr TypeError
  end.

Definition compare_values (op : cmpop) (a b : value) : value + exn :=
  match op with
  | Eq_ => inl (VBool (value_eq a b))
  | NotEq => inl (VBool (negb (value_eq a b)))
  | Lt_ => order Z.ltb (fun c => match c with Lt => true | _ => false end) a b
  | LtE => order Z.leb (fun c => match c with Gt => false | _ => true end) a b
  | Gt_ => order Z.gtb (fun c => match c with Gt => true | _ => false end) a b
  | GtE => order Z.geb (fun c => match c with Lt => false | _ => true end) a b
  | In_ => match contains a b with
           | inl r => inl (VBool r)
           | inr e => inr e
           end
  | NotIn => match contains a b with
             | inl r => inl (VBool (negb r))
             | inr e => inr e
             end
  end.

(** *** Evaluation: a writer of effects with exceptions *)

Definition ev (A : Type) : Type := list effect * (A + exn).

Definition ev_ret {A} (a : A) : ev A := ([], inl a).
Definition ev_raise {A} (e : exn) : ev A := ([], inr e).
Definition ev_bind {A B} (m : ev A) (f : A -> ev B) : ev B :=
  match m with
  | (w, inl a) => let (w', r) := f a in (w ++ w', r)
  | (w, inr e) => (w, inr e)
  end.
Definition ev_lift {A} (r : A + exn) : ev A := ([], r).

Definition globals : Type := list (string * value).

Fixpoint lookup (id : string) (g : globals) : option value :=
  match g with
  | [] => None
  | (k, v) :: g' => if String.eqb k id then Some v else lookup id g'
  end.

(** The builtins of the model: [print] and [exit]. A name found neither in
    the globals nor here raises NameError, as Python does for a name that is
    not a builtin. *)
Definition builtin (id : string) : option value :=
  if String.eqb id "print" then Some (VBuiltin "print")
  else if String.eqb id "exit" then Some (VBuiltin "exit")
  else None.

(** [exit()] and [exit(code)] raise SystemExit. *)
Definition call (f : value) (args : list value) : ev value :=
  match f with
  | VBuiltin name =>
      if String.eqb name "print" then ([EffPrint args], inl VNone)
      else if String.eqb name "exit" then
        match args with
        | [] => ev_raise (SystemExit VNone)
        | [code] => ev_raise (SystemExit code)
        | _ => ev_raise TypeError
        end
      else ev_raise TypeError
  | _ => ev_raise TypeError
  end.

Fixpoint eval_expr (g : globals) (e : expr) {struct e} : ev value :=
  match e with
  | EName id =>
      match lookup id g with
      | Some v => ev_ret v
      | None =>
          match builtin id with
          | Some v => ev_ret v
          | None => ev_raise (NameError id)
          end
      end
  | EConst v => ev_ret v
  | EAttr e' attr =>
      (* the values of the model carry no attributes *)
      ev_bind (eval_expr g e') (fun _ => ev_raise (AttributeError attr))
  | ENot e' =>
      ev_bind (eval_expr g e') (fun v => ev_ret (VBool (negb (truthy v))))
  | EBoolOp And l r =>
      ev_bind (eval_expr g l) (fun v => if truthy v then eval_expr g r else ev_ret v)
  | EBoolOp Or l r =>
      ev_bind (eval_expr g l) (fun v => if truthy v then ev_ret v else eval_expr g r)
  | ECompare l rest =>
      ev_bind (eval_expr g l) (fun lv =>
        (fix chain (cs : list (cmpop * expr)) (lv : value) {struct cs} : ev value :=
           match cs with
           | [] => ev_ret (VBool true)
           | (op, r) :: cs' =>
               ev_bind (eval_expr g r) (fun rv =>
               ev_bind (ev_lift (compare_values op lv rv)) (fun b =>
                 match cs' with
                 | [] => ev_ret b
                 | _ :: _ => if truthy b then chain cs' rv else ev_ret b
                 end))
           end) rest lv)
  | ECall f args =>
      ev_bind (eval_expr g f) (fun fv =>
      ev_bind ((fix eval_args (es : list expr) {struct es} : ev (list value) :=
                  match es with
                  | [] => ev_ret []
                  | a :: es' =>
                      ev_bind (eval_expr g a) (fun v =>
                      ev_bind (eval_args es') (fun vs => ev_ret (v :: vs)))
                  end) args) (fun vs =>
      call fv vs))
  end.

(** *** Lexer *)

Inductive token : Type :=
| TName (id : string)
| TInt (z : Z)
| TStr (s : string)
| TAnd | TOr | TNot | TIn | TTrue | TFalse | TNone
| TOtherKeyword
| TCmp (op : cmpop)
| TLParen | TRParen | TDot | TComma.

Definition code (c : ascii) : N := N_of_ascii c.

Definition is_digit (c : ascii) : bool :=
  ((48 <=? code c) && (code c <=? 57))%N.

Definition is_name_start (c : ascii) : bool :=
  (((65 <=? code c) && (code c <=? 90))
   || ((97 <=? code c) && (code c <=? 122))
   || (code c =? 95))%N.

Definition is_name_char (c : ascii) : bool := is_name_start c || is_digit c.

Definition is_space (c : ascii) : bool := ((code c =? 32) || (code c =? 9))%N.

Definition is_quote (c : ascii) : bool := ((code c =? 34) || (code c =? 39))%N.

(** The longest prefix of [s] whose characters satisfy [p], and the rest. *)
Fixpoint span (p : ascii -> bool) (s : string) : string * string :=
  match s with
  | EmptyString => (EmptyString, EmptyString)
  | String c s' =>
      if p c then let (a, b) := span p s' in (String c a, b)
      else (EmptyString, s)
  end.

Fixpoint digits_value (acc : Z) (s : string) : Z :=
  match s with
  | EmptyString => acc
  | String c s' => digits_value (10 * acc + Z.of_N (code c - 48)) s'
  end.

Fixpoint all_zero (s : string) : bool :=
  match s with
  | EmptyString => true
  | String c s' => (code c =? 48)%N && all_zero s'
  end.

(** The other reserved words of Python: none of them is used by the fragment,
    and none of them can be a name. *)
Definition other_keywords : list string :=
  ["as"; "assert"; "async"; "await"; "break"; "class"; "continue"; "def";
   "del"; "elif"; "else"; "except"; "finally"; "for"; "from"; "global"; "if";
   "import"; "is"; "lambda"; "nonlocal"; "pass"; "raise"; "return"; "try";
   "while"; "with"; "yield"].

Definition word (w : string) : token :=
  if String.eqb w "and" then TAnd
  else if String.eqb w "or" then TOr
  else if String.eqb w "not" then TNot
  else if String.eqb w "in" then TIn
  else if String.eqb w "True" then TTrue
  else if String.eqb w "False" then TFalse
  else if String.eqb w "None" then TNone
  else if existsb (String.eqb w) other_keywords then TOtherKeyword
  else TName w.

(** The body of a string literal opened by quote [q]: characters up to the
    closing quote. Escapes and line breaks are outside the fragment. *)
Fixpoint string_body (q : ascii) (s : string) : option (string * string) :=
  match s with
  | EmptyString => None
  | String c s' =>
      if Ascii.eqb c q then Some (EmptyString, s')
      else if ((code c =? 92) || (code c =? 10) || (code c =? 13))%N then None
      else match string_body q s' with
           | Some (body, rest) => Some (String c body, rest)
           | None => None
           end
  end.

Definition push (t : token) (r : option (list token)) : option (list token) :=
  option_map (cons t) r.

Fixpoint lex (fuel : nat) (s : string) : option (list token) :=
  match fuel with
  | O => None
  | S fuel =>
      match s with
      | EmptyString => Some []
      | String c s' =>
          if is_space c then lex fuel s'
          else if is_name_start c then
            let (w, rest) := span is_name_char s in
            push (word w) (lex fuel rest)
          else if is_digit c then
            let (ds, rest) := span is_digit s in
            match rest with
            | String c' _ =>
                if is_name_char c' then None
                else if Ascii.eqb c "0" && negb (all_zero ds) then None
                else push (TInt (digits_value 0 ds)) (lex fuel rest)
            | EmptyString =>
                if Ascii.eqb c "0" && negb (all_zero ds) then None
                else Some [TInt (digits_value 0 ds)]
            end
          else if is_quote c then
            match string_body c s' with
            | Some (body, rest) => push (TStr body) (lex fuel rest)
            | None => None
            end
          else
            match c, s' with
            | "("%char, _ => push TLParen (lex fuel s')
            | ")"%char, _ => push TRParen (lex fuel s')
            | "."%char, _ => push TDot (lex fuel s')
            | ","%char, _ => push TComma (lex fuel s')
            | "="%char, String "="%char s2 => push (TCmp Eq_) (lex fuel s2)
            | "!"%char, String "="%char s2 => push (TCmp NotEq) (lex fuel s2)
            | "<"%char, String "="%char s2 => push (TCmp LtE) (lex fuel s2)
            | ">"%char, String "="%char s2 => push (TCmp GtE) (lex fuel s2)
            | "<"%char, _ => push (TCmp Lt_) (lex fuel s')
            | ">"%char, _ => push (TCmp Gt_) (lex fuel s')
            | _, _ => None
            end
      end
  end.

Definition tokenize (s : string) : option (list token) :=
  lex (S (String.length s)) s.

(** *** Parser

    Recursive descent over Python's grammar for the fragment:
<<
    expression := conjunction ('or' conjunction)*
    conjunction := inversion ('and' inversion)*
    inversion := 'not' inversion | comparison
    comparison := primary (compare_op primary)*
    primary := atom ('.' NAME | '(' [expression (',' expression)*] ')')*
    atom := NAME | NUMBER | STRING | 'True' | 'False' | 'None' | '(' expression ')'
>>
    Each function returns the expression read and the tokens left. *)

Definition parsed (A : Type) : Type := option (A * list token).

Definition compare_op (ts : list token) : parsed cmpop :=
  match ts with
  | TCmp op :: ts' => Some (op, ts')
  | TIn :: ts' => Some (In_, ts')
  | TNot :: TIn :: ts' => Some (NotIn, ts')
  | _ => None
  end.

Fixpoint expression (n : nat) (ts : list token) {struct n} : parsed expr :=
  match n with
  | O => None
  | S n =>
      match conjunction n ts with
      | Some (l, TOr :: ts') =>
          match expression n ts' with
          | Some (r, ts'') => Some (EBoolOp Or l r, ts'')
          | None => None
          end
      | other => other
      end
  end
with conjunction (n : nat) (ts : list token) {struct n} : parsed expr :=
  match n with
  | O => None
  | S n =>
      match inversion n ts with
      | Some (l, TAnd :: ts') =>
          match conjunction n ts' with
          | Some (r, ts'') => Some (EBoolOp And l r, ts'')
          | None => None
          end
      | other => other
      end
  end
with inversion (n : nat) (ts : list token) {struct n} : parsed expr :=
  match n with
  | O => None
  | S n =>
      match ts with
      | TNot :: ts' =>
          match inversion n ts' with
          | Some (e, ts'') => Some (ENot e, ts'')
          | None => None
          end
      | _ => comparison n ts
      end
  end
with comparison (n : nat) (ts : list token) {struct n} : parsed expr :=
  match n with
  | O => None
  | S n =>
      match primary n ts with
      | Some (l, ts') =>
          match compare_rest n ts' with
          | Some ([], ts'') => Some (l, ts'')
          | Some (rest, ts'') => Some (ECompare l rest, ts'')
          | None => None
          end
      | None => None
      end
  end
with compare_rest (n : nat) (ts : list token) {struct n}
    : parsed (list (cmpop * expr)) :=
  match n with
  | O => None
  | S n =>
      match compare_op ts with
      | Some (op, ts') =>
          match primary n ts' with
          | Some (r, ts'') =>
              match compare_rest n ts'' with
              | Some (rest, ts3) => Some ((op, r) :: rest, ts3)
              | None => None
              end
          | None => None
          end
      | None => Some ([], ts)
      end
  end
with primary (n : nat) (ts : list token) {struct n} : parsed expr :=
  match n with
  | O => None
  | S n =>
      match atom n ts with
      | Some (a, ts') => trailers n a ts'
      | None => None
      end
  end
with trailers (n : nat) (a : expr) (ts : list token) {struct n} : parsed expr :=
  match n with
  | O => None
  | S n =>
      match ts with
      | TDot :: TName attr :: ts' => trailers n (EAttr a attr) ts'
      | TDot :: _ => None
      | TLParen :: TRParen :: ts' => trailers n (ECall a []) ts'
      | TLParen :: ts' =>
          match arguments n ts' with
          | Some (args, ts'') => trailers n (ECall a args) ts''
          | None => None
          end
      | _ => Some (a, ts)
      end
  end
with arguments (n : nat) (ts : list token) {struct n} : parsed (list expr) :=
  match n with
  | O => None
  | S n =>
      match expression n ts with
      | Some (e, TRParen :: ts') => Some ([e], ts')
      | Some (e, TComma :: TRParen :: ts') => Some ([e], ts')
      | Some (e, TComma :: ts') =>
          match arguments n ts' with
          | Some (es, ts'') => Some (e :: es, ts'')
          | None => None
          end
      | _ => None
      end
  end
with atom (n : nat) (ts : list token) {struct n} : parsed expr :=
  match n with
  | O => None
  | S n =>
      match ts with
      | TName id :: ts' => Some (EName id, ts')
      | TInt z :: ts' => Some (EConst (VInt z), ts')
      | TStr s :: ts' => Some (EConst (VStr s), ts')
      | TTrue :: ts' => Some (EConst (VBool true), ts')
      | TFalse :: ts' => Some (EConst (VBool false), ts')
      | TNone :: ts' => Some (EConst VNone, ts')
      | TLParen :: ts' =>
          match expression n ts' with
          | Some (e, TRParen :: ts'') => Some (e, ts'')
          | _ => None
          end
      | _ => None
      end
  end.

(** [parse] succeeds when the whole string is one expression of the fragment.
    A string outside of the fragment is reported as a syntax error, whether
    or not full Python would accept it. *)
Definition parse (s : string) : option expr :=
  match tokenize s with
  | Some ts =>
      match expression (8 * List.length ts + 8) ts with
      | Some (e, []) => Some e
      | _ => None
      end
  | None => None
  end.

(** [eval(source, globals)]: compile, then evaluate. *)
Definition eval (source : string) (g : globals) : ev value :=
  match parse source with
  | Some e => eval_expr g e
  | None => ev_raise SyntaxError
  end.

End Py.

Import Py.

(** ** The world of the program: results, events, state *)

(** What [subprocess.run] returns when the process completes. *)
Record CompletedProcess : Type := mkCompleted {
  returncode : Z;
  stdout : string;
  stderr : string
}.

Inductive Result (A : Type) : Type :=
| Normal (a : A)
| Raise (e : exn).
Arguments Normal {A} a.
Arguments Raise {A} e.

(** The lines the program prints, one constructor per [print] of the source.
    [LStdout s] and [LStderr s] stand for the line showing [s.strip()]. *)
Inductive Line : Type :=
| LEvalError (e : exn)                 (* Error evaluating condition: {e} *)
| LAttempt (attempt attempts : Z)      (* Attempt {attempt}/{attempts}: *)
| LCommand (command : list string)     (* Command: {' '.join(command)} *)
| LExitCode (code : Z)                 (* Exit Code: {result.returncode} *)
| LStdout (s : string)                 (* Stdout: {stdout.strip()} *)
| LStderr (s : string)                 (* Stderr: {stderr.strip()} *)
| LConditionMet                        (* Condition met. Exiting. *)
| LConditionNotMet                     (* Condition not met. Retrying... *)
| LTimedOut (timeout : Q)              (* Command timed out after ... *)
| LExecError (e : exn)                 (* Error executing command: {e} *)
| LSleeping (sleep_time : Q)           (* Sleeping for ... seconds ... *)
| LMaxAttempts                         (* Maximum attempts reached. Exiting. *)
| LNoCommand.                          (* Error: No command specified. *)

(** [Run attempt command timeout] is a call of [subprocess.run]; it is
    labelled with the loop index during which it is made. [Effect] is an
    effect of evaluating the condition. *)
Inductive Event : Type :=
| Run (attempt : Z) (command : list string) (timeout : Q)
| Print (l : Line)
| Sleep (seconds : Q)
| Effect (e : effect).

Record State : Type := mkState {
  calls : nat;          (* calls of subprocess.run so far *)
  draws : nat;          (* calls of random.random() so far *)
  log : list Event      (* what has happened, oldest first *)
}.

Definition initial_state : State := mkState 0 0 [].

(** *** What [eval] can see of the program

    The expression given to [eval] can reach, through the builtins, the
    frames of its callers and the modules of the interpreter. [Locals] holds
    the local variables of [execute_command] at the time of the call (the
    values parsed from [sys.argv] among them), and [Context] adds the values
    the random generator will return next. *)
Record Locals : Type := mkLocals {
  l_command : list string;
  l_condition : string;
  l_attempts : Z;
  l_delay : Q;
  l_backoff : Q;
  l_max_delay : Q;
  l_jitter : Q;
  l_timeout : Q;
  l_attempt : Z;
  l_result : CompletedProcess
}.

Record Context : Type := mkContext {
  ctx_locals : Locals;
  ctx_random : nat -> Q    (* the next values of random.random() *)
}.

(** [eval(source, globals)] in a given state of the interpreter. *)
Definition Evaluator : Type := string -> globals -> ev value.

(** Python's [eval]: an evaluator for every state of the interpreter. *)
Definition Eval : Type := Context -> Evaluator.

(** The instance for the fragment of [Py], which looks at nothing but its
    globals. *)
Definition fragment_eval : Eval := fun _ => Py.eval.

(** How many values an evaluation took from the random generator. *)
Fixpoint eval_draws (effects : list effect) : nat :=
  match effects with
  | [] => 0
  | EffRandom :: effects' => S (eval_draws effects')
  | _ :: effects' => eval_draws effects'
  end.

(** A state monad with exceptions. *)
Definition M (A : Type) : Type := State -> Result A * State.

Definition ret {A} (a : A) : M A := fun st => (Normal a, st).
Definition raise {A} (e : exn) : M A := fun st => (Raise e, st).
Definition bind {A B} (m : M A) (f : A -> M B) : M B :=
  fun st =>
    match m st with
    | (Normal a, st') => f a st'
    | (Raise e, st') => (Raise e, st')
    end.

(** [try: m except Exception as e: handler e]. An exception that is not an
    [Exception] passes through. *)
Definition try_except {A} (m : M A) (handler : exn -> M A) : M A :=
  fun st =>
    match m st with
    | (Normal a, st') => (Normal a, st')
    | (Raise e, st') =>
        if is_Exception e then handler e st' else (Raise e, st')
    end.

Declare Scope redo_scope.
Delimit Scope redo_scope with redo.
Notation "x <- m ;; k" := (bind m (fun x => k))
  (at level 100, m at next level, right associativity) : redo_scope.
Notation "m ;; k" := (bind m (fun _ => k))
  (at level 100, right associativity) : redo_scope.
Local Open Scope redo_scope.

Definition emit (evs : list Event) : M unit :=
  fun st => (Normal tt, mkState (calls st) (draws st) (log st ++ evs)).

Definition print (l : Line) : M unit := emit [Print l].

(** The longest sleep [time.sleep] accepts: the length is counted in
    nanoseconds in a signed 64-bit integer. (Where exactly the limit falls
    depends on the rounding of the conversion.) *)
Definition sleep_limit : Q := 9223372036854775807 # 1000000000.

(** [time.sleep(seconds)]: a negative length is a ValueError, a length over
    the limit an OverflowError. *)
Definition time_sleep (seconds : Q) : M unit :=
  if Qle_bool 0 seconds then
    if Qle_bool seconds sleep_limit then emit [Sleep seconds]
    else raise OverflowError
  else raise ValueError.

(** [min(a, b)] of Python: [b] when [b < a], else [a]. *)
Definition py_min (a b : Q) : Q := if Qle_bool a b then a else b.

(** [range(lo, hi)]. *)
Definition py_range (lo hi : Z) : list Z :=
  map (fun i => lo + Z.of_nat i) (seq 0 (Z.to_nat (hi - lo))).

(** ** The program *)

Section Redo.

(** Python's [eval]. *)
Variable py_eval : Eval.
(** The [n]-th call of [subprocess.run(command, ..., timeout=timeout)]. *)
Variable proc : nat -> list string -> Q -> Result CompletedProcess.
(** The [n]-th call of [random.random()], a number in [0, 1). *)
Variable rnd : nat -> Q.

Definition subprocess_run (attempt : Z) (command : list string) (timeout : Q)
    : M CompletedProcess :=
  fun st =>
    (proc (calls st) command timeout,
     mkState (S (calls st)) (draws st) (log st ++ [Run attempt command timeout])).

Definition random_random : M Q :=
  fun st => (Normal (rnd (draws st)), mkState (calls st) (S (draws st)) (log st)).

(** [random.uniform(a, b)] is [a + (b - a) * random()]. *)
Definition random_uniform (a b : Q) : M Q :=
  u <- random_random ;; ret (a + (b - a) * u)%Q.

(** The state of the interpreter as [eval] can see it from where
    [execute_command] stands. *)
Definition interpreter (locals : Locals) : M Context :=
  fun st => (Normal (mkContext locals (fun i => rnd (draws st + i)%nat)), st).

(** [eval(source, g)]: its effects go to the log, the values it took from the
    random generator are counted. *)
Definition eval_ (py : Evaluator) (source : string) (g : globals) : M value :=
  fun st =>
    let (effects, r) := py source g in
    (match r with inl v => Normal v | inr e => Raise e end,
     mkState (calls st) (eval_draws effects + draws st)
       (log st ++ map Effect effects)).

(** redo.py, lines 8-16. [py] is [eval] in the current state of the
    interpreter. *)
Definition evaluate_condition (py : Evaluator)
    (stdout stderr condition : string) : M value :=
  try_except
    (eval_ py condition [("stdout", VStr stdout); ("stderr", VStr stderr)])
    (fun e => print (LEvalError e) ;; ret (VBool false)).

(** redo.py, lines 24-50: the [try] statement of the loop body. The result is
    [Some b] when the function returns [b] from inside the loop, [None] when
    control reaches the code after the [try]. *)
Definition attempt_once (attempt : Z) (command : list string)
    (condition : string) (attempts : Z)
    (delay backoff max_delay jitter timeout : Q) : M (option bool) :=
  try_except
    (result <- subprocess_run attempt command timeout ;;
     ctx <- interpreter (mkLocals command condition attempts delay backoff
                           max_delay jitter timeout attempt result) ;;
     success <- evaluate_condition (py_eval ctx)
                  (stdout result) (stderr result) condition ;;
     print (LAttempt attempt attempts) ;;
     print (LCommand command) ;;
     print (LExitCode (returncode result)) ;;
     print (LStdout (stdout result)) ;;
     print (LStderr (stderr result)) ;;
     if truthy success then
       print LConditionMet ;; ret (Some true)
     else
       print LConditionNotMet ;; ret None)
    (fun e =>
       match e with
       | TimeoutExpired => print (LTimedOut timeout) ;; ret None
       | _ => print (LExecError e) ;; ret None
       end).

(** redo.py, lines 52-57: exponential backoff with jitter. In
    [delay * (2 ** (attempt - 1))] the int [2 ** (attempt - 1)] is converted
    to a float, which raises OverflowError from [2 ** 1024] on. *)
Definition backoff_sleep (attempt : Z) (delay max_delay jitter : Q) : M unit :=
  if 1024 <=? attempt - 1 then raise OverflowError
  else
    let sleep_time := py_min (delay * Qpower 2 (attempt - 1)) max_delay in
    sleep_time <- (if negb (Qle_bool jitter 0) then
                     j <- random_uniform 0 jitter ;; ret (sleep_time + j)%Q
                   else ret sleep_time) ;;
    print (LSleeping sleep_time) ;;
    time_sleep sleep_time.

(** redo.py, lines 23-60: the [for] loop over the attempt indices still to do,
    then the code after the loop. *)
Fixpoint retry_loop (todo : list Z) (command : list string) (condition : string)
    (attempts : Z) (delay backoff max_delay jitter timeout : Q) : M bool :=
  match todo with
  | [] => print LMaxAttempts ;; ret false
  | attempt :: todo' =>
      r <- attempt_once attempt command condition attempts
             delay backoff max_delay jitter timeout ;;
      match r with
      | Some b => ret b
      | None =>
          backoff_sleep attempt delay max_delay jitter ;;
          retry_loop todo' command condition attempts
            delay backoff max_delay jitter timeout
      end
  end.

(** redo.py, lines 18-60. The body does not use the parameter [backoff]; it
    is one of the locals [eval] can see. *)
Definition execute_command (command : list string) (condition : string)
    (attempts : Z) (delay backoff max_delay jitter timeout : Q) : M bool :=
  retry_loop (py_range 1 (attempts + 1)) command condition attempts
    delay backoff max_delay jitter timeout.

(** The namespace returned by [parser.parse_args()]. *)
Record Namespace : Type := mkNamespace {
  ns_command : list string;
  ns_attempts : Z;
  ns_delay : Q;
  ns_backoff : Q;
  ns_max_delay : Q;
  ns_jitter : Q;
  ns_timeout : Q;
  ns_condition : string
}.

(** redo.py, lines 77-92. [sys.exit(n)] ends [main] with [Normal n]. *)
Definition main (args : Namespace) : M Z :=
  match ns_command args with
  | [] => print LNoCommand ;; ret 1
  | _ :: _ =>
      success <- execute_command (ns_command args) (ns_condition args)
                   (ns_attempts args) (ns_delay args) (ns_backoff args)
                   (ns_max_delay args) (ns_jitter args) (ns_timeout args) ;;
      ret (if success then 0 else 1)
  end.

End Redo.

(** The options given on the command line; an option that is absent takes the
    default declared in redo.py, lines 66-73. *)
Record CommandLine : Type := mkCommandLine {
  cl_command : list string;
  cl_attempts : option Z;
  cl_delay : option Q;
  cl_backoff : option Q;
  cl_max_delay : option Q;
  cl_jitter : option Q;
  cl_timeout : option Q;
  cl_condition : option string
}.

Definition default {A} (d : A) (o : option A) : A :=
  match o with Some a => a | None => d end.

Definition default_condition : string := "result.returncode == 0".

Definition parse_args (cl : CommandLine) : Namespace :=
  mkNamespace (cl_command cl)
    (default 5 (cl_attempts cl))
    (default 1%Q (cl_delay cl))
    (default 2%Q (cl_backoff cl))
    (default 30%Q (cl_max_delay cl))
    (default 0%Q (cl_jitter cl))
    (default 10%Q (cl_timeout cl))
    (default default_condition (cl_condition cl)).

(** The exit status an uncaught [SystemExit(code)] gives the process: 0 for
    [None], the integer for an integer (the low eight bits of it), 1 for
    anything else. *)
Definition status_of_code (code : value) : Z :=
  match code with
  | VNone => 0
  | VInt n => n mod 256
  | VBool b => if b then 1 else 0
  | _ => 1
  end.

(** The exit status of the process: the argument of [sys.exit]; the status
    of a [SystemExit] raised elsewhere; 1 when another exception reaches the
    top level. *)
Definition exit_status (r : Result Z) : Z :=
  match r with
  | Normal n => n
  | Raise (SystemExit code) => status_of_code code
  | Raise _ => 1
  end.

(** ** Observations on a log *)

(** The loop indices of the [subprocess.run] calls, in order. *)
Fixpoint run_labels (l : list Event) : list Z :=
  match l with
  | [] => []
  | Run attempt _ _ :: l' => attempt :: run_labels l'
  | _ :: l' => run_labels l'
  end.

(** How many times the target command was invoked. *)
Definition invocations (l : list Event) : nat := List.length (run_labels l).

(** The lengths of the sleeps, in order. *)
Fixpoint sleeps (l : list Event) : list Q :=
  match l with
  | [] => []
  | Sleep s :: l' => s :: sleeps l'
  | _ :: l' => sleeps l'
  end.

(** The errors reported by the lines [Error evaluating condition], in
    order. *)
Fixpoint eval_errors (l : list Event) : list exn :=
  match l with
  | [] => []
  | Print (LEvalError e) :: l' => e :: eval_errors l'
  | _ :: l' => eval_errors l'
  end.

(** The events after the last [subprocess.run] call (the whole log when there
    is none). *)
Fixpoint after_last_run (l : list Event) : list Event :=
  match l with
  | [] => []
  | e :: l' =>
      match run_labels l' with
      | [] => match e with Run _ _ _ => l' | _ => e :: after_last_run l' end
      | _ :: _ => after_last_run l'
      end
  end.

(** An event that is neither an invocation nor a sleep. *)
Definition quiet (e : Event) : bool :=
  match e with
  | Print _ | Effect _ => true
  | Run _ _ _ | Sleep _ => false
  end.

(** ** The success predicate of one attempt *)

(** The globals [evaluate_condition] passes to [eval]. *)
Definition condition_globals (stdout stderr : string) : globals :=
  [("stdout", VStr stdout); ("stderr", VStr stderr)].

Section Predicate.

Variable py : Evaluator.

(** The value [evaluate_condition] returns when it returns: the value of the
    expression, or [False] when its evaluation raises. *)
Definition condition_value (stdout stderr condition : string) : value :=
  match snd (py condition [("stdout", VStr stdout); ("stderr", VStr stderr)]) with
  | inl v => v
  | inr _ => VBool false
  end.

(** The predicate is satisfied on an attempt when the process completed and
    the value of the condition on its output is true. *)
Definition satisfied (condition : string) (r : Result CompletedProcess) : bool :=
  match r with
  | Normal result => truthy (condition_value (stdout result) (stderr result) condition)
  | Raise _ => false
  end.

End Predicate.

(** How an attempt comes out: the predicate is satisfied; it is not (the
    value is false, or an [Exception] was raised by the evaluation or by
    [subprocess.run]); or an exception that is not an [Exception] leaves the
    program. *)
Inductive Verdict : Type :=
| Satisfied
| NotSatisfied
| Leaves (e : exn).

Definition verdict_of (outcome : value + exn) : Verdict :=
  match outcome with
  | inl v => if truthy v then Satisfied else NotSatisfied
  | inr e => if is_Exception e then NotSatisfied else Leaves e
  end.

(** *** One attempt, in closed form

    [py_of result] is [eval] in the state of the interpreter where [result]
    is what [subprocess.run] returned. *)
Section OneAttempt.

Variable py_of : CompletedProcess -> Evaluator.
Variable condition : string.

(** The evaluation of the condition on a result. *)
Definition evaluation (result : CompletedProcess) : ev value :=
  py_of result condition (condition_globals (stdout result) (stderr result)).

(** How the attempt comes out, given what [subprocess.run] did. *)
Definition verdict_in (r : Result CompletedProcess) : Verdict :=
  match r with
  | Normal result => verdict_of (snd (evaluation result))
  | Raise e => verdict_of (inr e)
  end.

(** The values the attempt takes from the random generator. *)
Definition draws_in (r : Result CompletedProcess) : nat :=
  match r with
  | Normal result => eval_draws (fst (evaluation result))
  | Raise _ => O
  end.

(** The error the attempt reports for the evaluation of the condition. *)
Definition eval_error_in (r : Result CompletedProcess) : list exn :=
  match r with
  | Normal result =>
      match snd (evaluation result) with
      | inr e => if is_Exception e then [e] else []
      | inl _ => []
      end
  | Raise _ => []
  end.

(** What evaluating the condition adds to the log: the effects of [eval], then
    the error line when [eval] raises an [Exception]. *)
Definition eval_events (result : CompletedProcess) : list Event :=
  map Effect (fst (evaluation result))
  ++ map (fun e => Print (LEvalError e)) (eval_error_in (Normal result)).

(** What the attempt adds to the log. *)
Definition attempt_events (attempt : Z) (command : list string) (attempts : Z)
    (timeout : Q) (r : Result CompletedProcess) : list Event :=
  Run attempt command timeout
  :: match r with
     | Normal result =>
         eval_events result
         ++ match verdict_in r with
            | Leaves _ => []
            | v =>
                [Print (LAttempt attempt attempts);
                 Print (LCommand command);
                 Print (LExitCode (returncode result));
                 Print (LStdout (stdout result));
                 Print (LStderr (stderr result));
                 Print (match v with
                        | Satisfied => LConditionMet
                        | _ => LConditionNotMet
                        end)]
            end
     | Raise TimeoutExpired => [Print (LTimedOut timeout)]
     | Raise e => if is_Exception e then [Print (LExecError e)] else []
     end.

(** What the [try] statement of the loop body gives. *)
Definition attempt_result (r : Result CompletedProcess) : Result (option bool) :=
  match verdict_in r with
  | Satisfied => Normal (Some true)
  | NotSatisfied => Normal None
  | Leaves e => Raise e
  end.

End OneAttempt.

(** *** The attempts of a run, one by one

    In a run that starts in [initial_state], the invocation number [n]
    (counted from 0) is made by attempt [n + 1], after [n] attempts that were
    not satisfied and [n] sleeps. *)
Section Invocations.

Variable py_eval : Eval.
Variable proc : nat -> list string -> Q -> Result CompletedProcess.
Variable rnd : nat -> Q.
Variables (command : list string) (condition : string) (attempts : Z).
Variables (delay backoff max_delay jitter timeout : Q).

(** [eval] as attempt [attempt] finds it when [d] values have been taken
    from the generator before. *)
Definition evaluator_at (attempt : Z) (d : nat) (result : CompletedProcess)
    : Evaluator :=
  py_eval (mkContext
             (mkLocals command condition attempts delay backoff max_delay
                jitter timeout attempt result)
             (fun i => rnd (d + i)%nat)).

(** The values taken from the generator before invocation [n]: by the
    evaluations of the condition and, with jitter, one by each sleep. *)
Fixpoint draws_before (n : nat) : nat :=
  match n with
  | O => O
  | S m =>
      let d := draws_before m in
      let used :=
        draws_in (evaluator_at (Z.of_nat (S m)) d) condition
          (proc m command timeout) in
      if negb (Qle_bool jitter 0) then S (used + d) else (used + d)%nat
  end.

(** How invocation [n] comes out. *)
Definition invocation_verdict (n : nat) : Verdict :=
  verdict_in (evaluator_at (Z.of_nat (S n)) (draws_before n)) condition
    (proc n command timeout).

(** How attempt [k] (counted from 1) comes out. *)
Definition attempt_verdict (k : Z) : Verdict :=
  invocation_verdict (Z.to_nat (k - 1)).

(** The error reported when the condition is evaluated on the result of
    invocation [n], if any. *)
Definition invocation_eval_error (n : nat) : list exn :=
  eval_error_in (evaluator_at (Z.of_nat (S n)) (draws_before n)) condition
    (proc n command timeout).

End Invocations.

(** ** The delay *)

(** The delay of redo.py, lines 53 to 55, in closed form, as a function of the
    draw [u] of [random.random()]. It is the delay the source computes for
    [attempt] up to 1024; from attempt 1025 on the source raises instead
    ([backoff_sleep]). With jitter the sum is the exact one, which the source
    rounds to a double; without jitter the source computes the same value. *)
Definition sleep_time (attempt : Z) (delay max_delay jitter u : Q) : Q :=
  let capped := py_min (delay * Qpower 2 (attempt - 1)) max_delay in
  if negb (Qle_bool jitter 0) then (capped + (0 + (jitter - 0) * u))%Q else capped.

(** The delay the specification describes: [initialDelay] times
    [backoffMultiplier] to the power [k - 1], capped at [maxDelay], plus the
    jitter amount [j]. *)
Definition spec_delay (k : Z) (initialDelay backoffMultiplier maxDelay j : Q) : Q :=
  (Qmin (initialDelay * Qpower backoffMultiplier (k - 1)) maxDelay + j)%Q.

(** A bound under which [time.sleep] accepts a length whatever the rounding:
    nine thousand million seconds. *)
Definition sleep_safe : Q := 9000000000.

(** A policy whose delays never make lines 52-57 raise: at most 1024
    attempts, so that [2 ** (attempt - 1)] fits a float; a non-negative
    initial delay and cap; and a cap, with the jitter on top, that
    [time.sleep] accepts. *)
Definition accepted_delays (attempts : Z) (delay max_delay jitter : Q) : Prop :=
  attempts <= 1024
  /\ (0 <= delay)%Q
  /\ (0 <= max_delay)%Q
  /\ (max_delay <= sleep_safe)%Q
  /\ (max_delay + jitter <= sleep_safe)%Q.

(** The values of the random generator lie in [0, 1). *)
Definition unit_interval (rnd : nat -> Q) : Prop :=
  forall n, (0 <= rnd n /\ rnd n < 1)%Q.

(** ** Runs and worlds *)

(** The same namespace with another value for [-b/--backoff]. *)
Definition with_backoff (b : Q) (args : Namespace) : Namespace :=
  mkNamespace (ns_command args) (ns_attempts args) (ns_delay args) b
    (ns_max_delay args) (ns_jitter args) (ns_timeout args) (ns_condition args).

(** A whole run of the program from the command line. *)
Definition run (py_eval : Eval)
    (proc : nat -> list string -> Q -> Result CompletedProcess)
    (rnd : nat -> Q) (cl : CommandLine) : Result Z * State :=
  main py_eval proc rnd (parse_args cl) initial_state.

(** *** Worlds used in the examples *)

(** A command that completes at once with the same result every time. *)
Definition always_completes (code : Z) (out err : string)
    : nat -> list string -> Q -> Result CompletedProcess :=
  fun _ _ _ => Normal (mkCompleted code out err).

(** A command that runs out of time every time. *)
Definition always_times_out
    : nat -> list string -> Q -> Result CompletedProcess :=
  fun _ _ _ => Raise TimeoutExpired.

(** A command that cannot be spawned the first time, runs out of time the
    second time, and then completes with status 0 and output [ok]. *)
Definition flaky : nat -> list string -> Q -> Result CompletedProcess :=
  fun n _ _ =>
    match n with
    | O => Raise (OSError "No such file or directory")
    | S O => Raise TimeoutExpired
    | _ => Normal (mkCompleted 0 "ok" EmptyString)
    end.

(** A random generator that always returns 0. *)
Definition no_randomness : nat -> Q := fun _ => 0%Q.

(** A command line with only the positional command. *)
Definition only_command (command : list string) : CommandLine :=
  mkCommandLine command None None None None None None None.

(** The process ran to its end. *)
Definition completes (r : Result CompletedProcess) : bool :=
  match r with
  | Normal _ => true
  | Raise _ => false
  end.

(** [subprocess.run] raises nothing but [Exception]s: no signal interrupts
    the program while it waits for the command. *)
Definition raises_exceptions_only
    (proc : nat -> list string -> Q -> Result CompletedProcess) : Prop :=
  forall n command timeout e,
    proc n command timeout = Raise e -> is_Exception e = true.

(** The run makes no invocation of the command. *)
Definition aborts_before_any_attempt (r : Result Z * State) : Prop :=
  invocations (log (snd r)) = 0%nat.

(** The condition cannot be compiled. *)
Definition malformed (condition : string) : Prop := Py.parse condition = None.

(** A command line with the command, [-a attempts] and [-c condition]. *)
Definition with_condition (command : list string) (attempts : Z)
    (condition : string) : CommandLine :=
  mkCommandLine command (Some attempts) None None None None None (Some condition).

(** A condition outside the fragment of [Py]: it reads the local [backoff]
    of [execute_command] in the frame two levels above the evaluated code
    (the frame of [evaluate_condition] is one level above). *)
Definition reading_backoff : string :=
  "__import__('sys')._getframe(2).f_locals['backoff'] == 3.0".

(** [eval] extended to the condition [reading_backoff]. *)
Definition eval_reading_backoff : Eval :=
  fun ctx source g =>
    if String.eqb source reading_backoff
    then ev_ret (VBool (Qeq_bool (l_backoff (ctx_locals ctx)) 3))
    else Py.eval source g.

(** The predicate grammar of the specification, as a set of expressions:
    [and], [or], [not]; the comparisons and containment; the names [stdout]
    and [stderr]; integer and string literals. *)
Fixpoint in_grammar (e : expr) : bool :=
  match e with
  | EName id => String.eqb id "stdout" || String.eqb id "stderr"
  | EConst (VInt _) | EConst (VStr _) => true
  | EConst _ => false
  | EAttr _ _ => false
  | ENot e' => in_grammar e'
  | EBoolOp _ l r => in_grammar l && in_grammar r
  | ECompare l rest =>
      in_grammar l && forallb (fun '(_, r) => in_grammar r) rest
  | ECall _ _ => false
  end.

(** Evaluating the condition does nothing but compute a value. *)
Definition no_side_effects (condition : string) (g : globals) : Prop :=
  fst (Py.eval condition g) = [].

(** *** Comparing runs *)

(** The same locals with another value for [backoff]. *)
Definition locals_with_backoff (b : Q) (l : Locals) : Locals :=
  mkLocals (l_command l) (l_condition l) (l_attempts l) (l_delay l) b
    (l_max_delay l) (l_jitter l) (l_timeout l) (l_attempt l) (l_result l).

(** The evaluation of the condition does not depend on the value of
    [backoff]. *)
Definition ignores_backoff (py_eval : Eval) (condition : string) : Prop :=
  forall (l : Locals) (gen : nat -> Q) (b : Q) (g : globals),
    py_eval (mkContext (locals_with_backoff b l) gen) condition g
    = py_eval (mkContext l gen) condition g.

(** The sum of a list of durations. *)
Definition Qsum (l : list Q) : Q := fold_right Qplus 0%Q l.

(** ** Exceptions that leave the loop *)

(** How the exception [e] left the loop, with [k] the index of the attempt
    it followed: it is not an [Exception] (it went through the [try]
    statement); or it is the OverflowError of [2 ** (attempt - 1)]; or
    [time.sleep] raised it for the delay that the last line of the log
    announces, a negative one or one above [sleep_safe]. *)
Definition left_by (e : exn) (k : option Z) (l : list Event) : Prop :=
  is_Exception e = false
  \/ (e = OverflowError /\ exists a, k = Some a /\ 1025 <= a)
  \/ (exists l' s,
        l = l' ++ [Print (LSleeping s)]
        /\ ((e = ValueError /\ (s < 0)%Q)
            \/ (e = OverflowError /\ (sleep_safe < s)%Q))).

(** How the exception [e] left a run that made [n] invocations. *)
Definition run_left_by (e : exn) (n : nat) (l : list Event) : Prop :=
  is_Exception e = false
  \/ (e = OverflowError /\ n = 1025%nat)
  \/ (exists l' s,
        l = l' ++ [Print (LSleeping s)]
        /\ ((e = ValueError /\ (s < 0)%Q)
            \/ (e = OverflowError /\ (sleep_safe < s)%Q))).

(** ** Facts about logs *)

Lemma run_labels_app (l1 l2 : list Event) :
  run_labels (l1 ++ l2) = run_labels l1 ++ run_labels l2.
Proof.
  induction l1 as [|e l1 IH]; simpl; [reflexivity|].
  destruct e; simpl; rewrite IH; reflexivity.
Qed.

Lemma sleeps_app (l1 l2 : list Event) :
  sleeps (l1 ++ l2) = sleeps l1 ++ sleeps l2.
Proof.
  induction l1 as [|e l1 IH]; simpl; [reflexivity|].
  destruct e; simpl; rewrite IH; reflexivity.
Qed.

Lemma eval_errors_app (l1 l2 : list Event) :
  eval_errors (l1 ++ l2) = eval_errors l1 ++ eval_errors l2.
Proof.
  induction l1 as [|e l1 IH]; simpl; [reflexivity|].
  destruct e as [| ln | |]; simpl; try exact IH.
  destruct ln; simpl; rewrite IH; reflexivity.
Qed.

Lemma quiet_run_labels (l : list Event) :
  forallb quiet l = true -> run_labels l = [].
Proof.
  induction l as [|e l IH]; simpl; [reflexivity|].
  destruct e; simpl; intros H; try discriminate; auto.
Qed.

Lemma quiet_sleeps (l : list Event) :
  forallb quiet l = true -> sleeps l = [].
Proof.
  induction l as [|e l IH]; simpl; [reflexivity|].
  destruct e; simpl; intros H; try discriminate; auto.
Qed.

Lemma quiet_effects (effects : list effect) :
  forallb quiet (map Effect effects) = true.
Proof. induction effects; simpl; auto. Qed.

Lemma eval_errors_effects (effects : list effect) :
  eval_errors (map Effect effects) = [].
Proof. induction effects; simpl; auto. Qed.

Lemma invocations_app (l1 l2 : list Event) :
  invocations (l1 ++ l2) = (invocations l1 + invocations l2)%nat.
Proof. unfold invocations. rewrite run_labels_app, length_app. reflexivity. Qed.

(** What follows the last invocation. *)
Lemma after_last_run_app (l evs : list Event) (attempt : Z)
    (command : list string) (timeout : Q) :
  run_labels evs = [] ->
  after_last_run (l ++ Run attempt command timeout :: evs) = evs.
Proof.
  intros Hq. induction l as [|e l IH]; simpl.
  - rewrite Hq. reflexivity.
  - rewrite run_labels_app. simpl.
    destruct (run_labels l); simpl; exact IH.
Qed.

(** ** One iteration of the loop *)

Lemma bind_unfold {A B} (m : M A) (f : A -> M B) (st : State) :
  bind m f st
  = match m st with
    | (Normal a, st') => f a st'
    | (Raise e, st') => (Raise e, st')
    end.
Proof. reflexivity. Qed.

Section Steps.

Variable py_eval : Eval.
Variable proc : nat -> list string -> Q -> Result CompletedProcess.
Variable rnd : nat -> Q.

(** [evaluate_condition] lets no [Exception] out: it returns
    [condition_value], or raises what is not an [Exception]. *)
Lemma evaluate_condition_spec (py : Evaluator) (out err condition : string)
    (st : State) :
  evaluate_condition py out err condition st
  = let (effects, outcome) := py condition (condition_globals out err) in
    (match outcome with
     | inl v => Normal v
     | inr e => if is_Exception e then Normal (VBool false) else Raise e
     end,
     mkState (calls st) (eval_draws effects + draws st)
       (log st ++ map Effect effects
        ++ match outcome with
           | inl _ => []
           | inr e => if is_Exception e then [Print (LEvalError e)] else []
           end)).
Proof.
  unfold evaluate_condition, try_except, eval_, condition_globals.
  destruct (py condition _) as [effects [v|e]]; simpl.
  - rewrite app_nil_r. reflexivity.
  - destruct (is_Exception e).
    + unfold bind, print, emit, ret. simpl. rewrite <- app_assoc. reflexivity.
    + rewrite app_nil_r. reflexivity.
Qed.

(** The [try] statement in closed form: one invocation, then what the
    verdict of the attempt tells. *)
Lemma attempt_once_events (attempt : Z) (command : list string)
    (condition : string) (attempts : Z)
    (delay backoff max_delay jitter timeout : Q) (st : State) :
  let py_of := evaluator_at py_eval rnd command condition attempts
                 delay backoff max_delay jitter timeout attempt (draws st) in
  let r := proc (calls st) command timeout in
  attempt_once py_eval proc rnd attempt command condition attempts
    delay backoff max_delay jitter timeout st
  = (attempt_result py_of condition r,
     mkState (S (calls st)) (draws_in py_of condition r + draws st)
       (log st ++ attempt_events py_of condition attempt command attempts
                    timeout r)).
Proof.
  cbv zeta.
  unfold attempt_once, try_except, bind at 1, subprocess_run, attempt_result,
    attempt_events, verdict_in, draws_in, eval_events, eval_error_in,
    evaluation, evaluator_at.
  destruct (proc (calls st) command timeout) as [result|e]; simpl.
  - unfold bind at 1, interpreter. simpl. unfold bind at 1.
    rewrite evaluate_condition_spec. simpl.
    destruct (py_eval _ condition _) as [effects [v|e]]; simpl.
    + destruct (truthy v); unfold bind, print, emit, ret; simpl;
        repeat rewrite <- app_assoc; simpl; rewrite ?app_nil_r; reflexivity.
    + destruct (is_Exception e) eqn:He; simpl.
      * unfold bind, print, emit, ret; simpl.
        repeat rewrite <- app_assoc; simpl; rewrite ?app_nil_r. reflexivity.
      * rewrite ?He. repeat rewrite <- app_assoc. simpl.
        rewrite ?app_nil_r. reflexivity.
  - destruct (is_Exception e) eqn:He.
    + destruct e; try discriminate He; unfold bind, print, emit, ret; simpl;
        rewrite <- ?app_assoc; reflexivity.
    + destruct e; try discriminate He. simpl.
      rewrite <- ?app_assoc. reflexivity.
Qed.

End Steps.

(** The events of one attempt: the invocation first, then nothing but lines
    and effects, the last of them [Condition met] when the predicate is
    satisfied. *)
Lemma attempt_events_shape (py_of : CompletedProcess -> Evaluator)
    (condition : string) (attempt : Z) (command : list string) (attempts : Z)
    (timeout : Q) (r : Result CompletedProcess) :
  exists evs,
    attempt_events py_of condition attempt command attempts timeout r
    = Run attempt command timeout :: evs
    /\ forallb quiet evs = true
    /\ eval_errors evs = eval_error_in py_of condition r
    /\ (verdict_in py_of condition r = Satisfied ->
        exists l, evs = l ++ [Print LConditionMet]).
Proof.
  unfold attempt_events. eexists. split; [reflexivity|].
  destruct r as [result|e].
  - unfold eval_events, verdict_in, eval_error_in.
    destruct (evaluation py_of condition result) as [effects [v|e]]; simpl;
      [destruct (truthy v) | destruct (is_Exception e)]; simpl;
      rewrite ?forallb_app, ?eval_errors_app, ?quiet_effects,
        ?eval_errors_effects; simpl;
      (split; [reflexivity|]); (split; [reflexivity|]);
      intros H; try discriminate H.
    exists (map Effect effects
            ++ [Print (LAttempt attempt attempts); Print (LCommand command);
                Print (LExitCode (returncode result));
                Print (LStdout (stdout result));
                Print (LStderr (stderr result))]).
    rewrite ?app_nil_r, <- ?app_assoc. reflexivity.
  - unfold verdict_in, verdict_of.
    destruct (is_Exception e) eqn:He; destruct e; try discriminate He; simpl;
      (split; [reflexivity|]); (split; [reflexivity|]); intros H;
      discriminate H.
Qed.

(** The backoff step: OverflowError from attempt 1025 on; else it prints the
    delay and sleeps, or [time.sleep] raises. *)
Lemma backoff_sleep_spec (rnd : nat -> Q) (attempt : Z)
    (delay max_delay jitter : Q) (st : State) :
  let s := sleep_time attempt delay max_delay jitter (rnd (draws st)) in
  let d := if negb (Qle_bool jitter 0) then S (draws st) else draws st in
  backoff_sleep rnd attempt delay max_delay jitter st
  = if 1024 <=? attempt - 1 then (Raise OverflowError, st)
    else if Qle_bool 0 s then
      if Qle_bool s sleep_limit
      then (Normal tt,
            mkState (calls st) d (log st ++ [Print (LSleeping s); Sleep s]))
      else (Raise OverflowError,
            mkState (calls st) d (log st ++ [Print (LSleeping s)]))
    else (Raise ValueError,
          mkState (calls st) d (log st ++ [Print (LSleeping s)])).
Proof.
  unfold backoff_sleep, sleep_time.
  destruct (1024 <=? attempt - 1); [reflexivity|].
  destruct (negb (Qle_bool jitter 0)); simpl;
    unfold bind, random_uniform, random_random, bind, ret, print, emit, time_sleep;
    simpl;
    match goal with |- context [Qle_bool 0 ?x] => destruct (Qle_bool 0 x) end;
    try match goal with |- context [Qle_bool ?x sleep_limit] =>
          destruct (Qle_bool x sleep_limit) end;
    unfold emit, raise; simpl; rewrite <- ?app_assoc; reflexivity.
Qed.

(** ** Arithmetic of the delay *)

Lemma py_min_nonneg (a b : Q) : (0 <= a -> 0 <= b -> 0 <= py_min a b)%Q.
Proof. unfold py_min. destruct (Qle_bool a b); auto. Qed.

(** [min] of Python and [Qmin] agree. *)
Lemma py_min_Qmin (a b : Q) : (py_min a b == Qmin a b)%Q.
Proof.
  unfold py_min. destruct (Qle_bool a b) eqn:E.
  - apply Qle_bool_iff in E. symmetry. apply Q.min_l. exact E.
  - assert (H : (b <= a)%Q).
    { destruct (Qlt_le_dec a b) as [H|H]; [|exact H].
      apply Qlt_le_weak, Qle_bool_iff in H. congruence. }
    symmetry. apply Q.min_r. exact H.
Qed.

Lemma py_min_le_r (a b : Q) : (py_min a b <= b)%Q.
Proof.
  unfold py_min. destruct (Qle_bool a b) eqn:E.
  - apply Qle_bool_iff. exact E.
  - apply Qle_refl.
Qed.

Lemma jitter_positive (jitter : Q) :
  negb (Qle_bool jitter 0) = true -> (0 < jitter)%Q.
Proof.
  intros H. apply negb_true_iff in H.
  destruct (Qlt_le_dec 0 jitter) as [L|L]; [exact L|].
  apply Qle_bool_iff in L. congruence.
Qed.

(** With non-negative delays and a non-negative draw, the sleep length is not
    negative. *)
Lemma sleep_time_nonneg (attempt : Z) (delay max_delay jitter u : Q) :
  (0 <= delay -> 0 <= max_delay -> 0 <= u ->
   0 <= sleep_time attempt delay max_delay jitter u)%Q.
Proof.
  intros Hd Hm Hu. unfold sleep_time.
  assert (Hc : (0 <= py_min (delay * Qpower 2 (attempt - 1)) max_delay)%Q).
  { apply py_min_nonneg; [|exact Hm].
    apply Qmult_le_0_compat; [exact Hd|]. apply Qpower_0_le. discriminate. }
  destruct (negb (Qle_bool jitter 0)) eqn:J; [|exact Hc].
  apply jitter_positive in J.
  assert (Hj : (0 <= (jitter - 0) * u)%Q).
  { apply Qmult_le_0_compat; [lra | exact Hu]. }
  lra.
Qed.

(** The delay is at most the cap, plus less than the jitter when there is
    one. *)
Lemma sleep_time_upper (attempt : Z) (delay max_delay jitter u : Q) :
  (0 <= u -> u < 1 ->
   (jitter <= 0 -> sleep_time attempt delay max_delay jitter u <= max_delay)
   /\ (0 < jitter ->
       sleep_time attempt delay max_delay jitter u < max_delay + jitter))%Q.
Proof.
  intros Hu Hu1. unfold sleep_time.
  pose proof (py_min_le_r (delay * Qpower 2 (attempt - 1)) max_delay) as Hc.
  destruct (negb (Qle_bool jitter 0)) eqn:J.
  - apply jitter_positive in J. split; intros H; [lra|]. nra.
  - apply negb_false_iff, Qle_bool_iff in J. split; intros H; [exact Hc | lra].
Qed.


(** The delay the code computes is the one of the specification with the
    multiplier fixed at 2, for a jitter amount in [0, jitter) (zero when
    there is no jitter). *)
Lemma sleep_time_factor_two (attempt : Z) (delay max_delay jitter u : Q) :
  (0 <= u -> u < 1 ->
   exists j,
     0 <= j
     /\ (0 < jitter -> j < jitter)
     /\ (jitter <= 0 -> j == 0)
     /\ sleep_time attempt delay max_delay jitter u
        == spec_delay attempt delay 2 max_delay j)%Q.
Proof.
  intros Hu Hu1. unfold sleep_time, spec_delay.
  destruct (negb (Qle_bool jitter 0)) eqn:J.
  - apply jitter_positive in J.
    exists (jitter * u)%Q. repeat split.
    + apply Qmult_le_0_compat; [lra | exact Hu].
    + intros _. nra.
    + intros H. lra.
    + rewrite py_min_Qmin. ring.
  - apply negb_false_iff, Qle_bool_iff in J.
    exists 0%Q. repeat split; try lra.
    rewrite py_min_Qmin. ring.
Qed.

(** Under a policy with accepted delays, a delay of one of the first 1024
    attempts is one [time.sleep] accepts. *)
Lemma sleep_time_accepted (attempts attempt : Z) (delay max_delay jitter u : Q) :
  accepted_delays attempts delay max_delay jitter ->
  (0 <= u /\ u < 1)%Q ->
  Qle_bool 0 (sleep_time attempt delay max_delay jitter u) = true
  /\ Qle_bool (sleep_time attempt delay max_delay jitter u) sleep_limit = true.
Proof.
  intros (_ & Hd & Hm & Hs & Hsj) (Hu & Hu1).
  split; apply Qle_bool_iff.
  - apply sleep_time_nonneg; assumption.
  - destruct (sleep_time_upper attempt delay max_delay jitter u Hu Hu1)
      as (Hno & Hyes).
    assert (Hsafe : (sleep_safe <= sleep_limit)%Q)
      by (unfold Qle; simpl; lia).
    destruct (Qlt_le_dec 0 jitter) as [L|L].
    + specialize (Hyes L). lra.
    + specialize (Hno L). lra.
Qed.

(** ** [range] *)

Lemma py_range_from_1 (n : Z) :
  py_range 1 (n + 1) = map Z.of_nat (seq 1 (Z.to_nat n)).
Proof.
  unfold py_range. replace (n + 1 - 1) with n by lia.
  rewrite <- seq_shift, map_map. apply map_ext. intros i. lia.
Qed.

Lemma py_range_length (n : Z) :
  List.length (py_range 1 (n + 1)) = Z.to_nat n.
Proof. rewrite py_range_from_1, length_map, length_seq. reflexivity. Qed.

Lemma py_range_empty (n : Z) : n <= 0 -> py_range 1 (n + 1) = [].
Proof.
  intros H. rewrite py_range_from_1.
  replace (Z.to_nat n) with 0%nat by lia. reflexivity.
Qed.

Lemma py_range_firstn (n : Z) (m : nat) :
  (m <= Z.to_nat n)%nat ->
  firstn m (py_range 1 (n + 1)) = map Z.of_nat (seq 1 m).
Proof.
  intros H. rewrite py_range_from_1, firstn_map. f_equal.
  replace (Z.to_nat n) with (m + (Z.to_nat n - m))%nat by lia.
  rewrite seq_app, firstn_app, length_seq, Nat.sub_diag, firstn_O, app_nil_r.
  apply firstn_all2. rewrite length_seq. lia.
Qed.

(** ** The loop *)

Section Loop.

Variable py_eval : Eval.
Variable proc : nat -> list string -> Q -> Result CompletedProcess.
Variable rnd : nat -> Q.
Variables (command : list string) (condition : string) (attempts : Z).
Variables (delay backoff max_delay jitter timeout : Q).

Local Abbreviation loop todo :=
  (retry_loop py_eval proc rnd todo command condition attempts
     delay backoff max_delay jitter timeout).

Local Abbreviation verdict :=
  (invocation_verdict py_eval proc rnd command condition attempts
     delay backoff max_delay jitter timeout).

Local Abbreviation drawn :=
  (draws_before py_eval proc rnd command condition attempts
     delay backoff max_delay jitter timeout).

Local Abbreviation reported :=
  (invocation_eval_error py_eval proc rnd command condition attempts
     delay backoff max_delay jitter timeout).


Hypothesis delays_ok : accepted_delays attempts delay max_delay jitter.
Hypothesis rnd_ok : unit_interval rnd.

(** Under a policy with accepted delays, the loop from invocation [calls st]
    on ends in one of three ways. It returns [True] after the first
    invocation whose predicate is satisfied, with one sleep after each
    earlier invocation and none after the last one. It returns [False] after
    as many invocations as there are indices, none of them satisfied, with
    one sleep after each of them, the last one included. Or an exception
    that is not an [Exception] leaves it, at the first attempt that does not
    come out as not satisfied. *)
Lemma retry_loop_spec (len : nat) : forall st,
  draws st = drawn (calls st) ->
  (calls st + len <= 1024)%nat ->
  let todo := map Z.of_nat (seq (S (calls st)) len) in
  exists (m : nat) (r : Result bool) (st' : State),
    loop todo st = (r, st')
    /\ (m <= len)%nat
    /\ run_labels (log st') = run_labels (log st) ++ firstn m todo
    /\ eval_errors (log st')
       = eval_errors (log st) ++ List.concat (map reported (seq (calls st) m))
    /\ ((r = Normal true
         /\ exists k, m = S k
            /\ verdict (calls st + k) = Satisfied
            /\ (forall i, (i < k)%nat -> verdict (calls st + i) = NotSatisfied)
            /\ List.length (sleeps (log st'))
               = (List.length (sleeps (log st)) + k)%nat
            /\ sleeps (after_last_run (log st')) = [])
        \/ (r = Normal false
            /\ m = len
            /\ (forall i, (i < m)%nat -> verdict (calls st + i) = NotSatisfied)
            /\ List.length (sleeps (log st'))
               = (List.length (sleeps (log st)) + m)%nat
            /\ (m <> 0%nat ->
                exists s, sleeps (after_last_run (log st')) = [s]))
        \/ (exists e k,
              r = Raise e
              /\ m = S k
              /\ verdict (calls st + k) = Leaves e
              /\ (forall i, (i < k)%nat ->
                    verdict (calls st + i) = NotSatisfied)
              /\ List.length (sleeps (log st'))
                 = (List.length (sleeps (log st)) + k)%nat)).
Proof.
  induction len as [|len IH]; intros st Hd Hlen todo; subst todo.
  - exists 0%nat, (Normal false). eexists. split; [reflexivity|]. simpl.
    split; [lia|]. split; [rewrite run_labels_app; reflexivity|].
    split; [rewrite eval_errors_app; reflexivity|].
    right. left. repeat split; try lia.
    rewrite sleeps_app, length_app. simpl. lia.
  - cbn [seq map retry_loop]. rewrite bind_unfold, attempt_once_events.
    cbv zeta. rewrite Hd.
    pose proof (eq_refl : verdict (calls st) = verdict (calls st)) as Hv.
    unfold invocation_verdict at 2 in Hv.
    pose proof (eq_refl : reported (calls st) = reported (calls st)) as He.
    unfold invocation_eval_error at 2 in He.
    unfold attempt_result.
    match goal with |- context [attempt_events ?p ?c ?a ?cmd ?n ?t ?r] =>
      destruct (attempt_events_shape p c a cmd n t r)
        as (evs & -> & Hq & Herr & Hmet);
      set (used := draws_in p c r)
    end.
    rewrite <- He in Herr. rewrite <- Hv in Hmet. rewrite <- Hv.
    assert (Hrun : run_labels (log st ++ Run (Z.of_nat (S (calls st))) command
                                 timeout :: evs)
                   = run_labels (log st) ++ [Z.of_nat (S (calls st))]).
    { rewrite run_labels_app. simpl. rewrite (quiet_run_labels _ Hq).
      reflexivity. }
    assert (Hsl : sleeps (log st ++ Run (Z.of_nat (S (calls st))) command
                               timeout :: evs)
                  = sleeps (log st)).
    { rewrite sleeps_app. simpl. rewrite (quiet_sleeps _ Hq). apply app_nil_r. }
    assert (Herrs : eval_errors (log st ++ Run (Z.of_nat (S (calls st)))
                                   command timeout :: evs)
                    = eval_errors (log st) ++ reported (calls st)).
    { rewrite eval_errors_app. simpl. rewrite Herr. reflexivity. }
    destruct (verdict (calls st)) as [| |e] eqn:Hcase.
    + exists 1%nat, (Normal true). eexists. split; [reflexivity|].
      cbn [log firstn seq map List.concat].
      split; [lia|]. split; [exact Hrun|].
      split; [rewrite Herrs, app_nil_r; reflexivity|].
      left. split; [reflexivity|]. exists 0%nat.
      rewrite Nat.add_0_r. repeat split; try lia.
      * exact Hcase.
      * rewrite Hsl. lia.
      * rewrite after_last_run_app by (apply quiet_run_labels; exact Hq).
        apply quiet_sleeps. exact Hq.
    + rewrite bind_unfold, backoff_sleep_spec. cbv zeta. simpl draws.
      simpl calls. simpl log.
      replace (1024 <=? Z.of_nat (S (calls st)) - 1) with false
        by (symmetry; apply Z.leb_gt; lia).
      destruct (sleep_time_accepted attempts (Z.of_nat (S (calls st)))
                  delay max_delay jitter
                  (rnd (used + drawn (calls st))%nat) delays_ok
                  (rnd_ok (used + drawn (calls st))%nat)) as (H0 & Hmax).
      rewrite H0, Hmax.
      set (s := sleep_time (Z.of_nat (S (calls st))) delay max_delay jitter
                  (rnd (used + drawn (calls st))%nat)).
      match goal with |- context [retry_loop _ _ _ _ _ _ _ _ _ _ _ _ ?s] =>
        set (st2 := s) end.
      destruct (IH st2) as (m & r & st' & Hloop & Hm & Hl & He' & Hcases).
      { subst st2 used. reflexivity. }
      { subst st2. simpl. lia. }
      cbv zeta in Hloop, Hl, He', Hcases.
      change (calls st2) with (S (calls st)) in *.
      change (log st2)
        with ((log st ++ Run (Z.of_nat (S (calls st))) command timeout :: evs)
              ++ [Print (LSleeping s); Sleep s]) in *.
      exists (S m), r, st'. split; [exact Hloop|]. split; [lia|].
      split.
      { rewrite Hl, run_labels_app, Hrun. simpl.
        rewrite app_nil_r, <- app_assoc. reflexivity. }
      split.
      { rewrite He', eval_errors_app, Herrs. simpl.
        rewrite app_nil_r, <- app_assoc. reflexivity. }
      assert (Hsl' : forall n,
                 List.length (sleeps (log st')) =
                 (List.length
                    (sleeps ((log st ++ Run (Z.of_nat (S (calls st))) command
                                       timeout :: evs)
                             ++ [Print (LSleeping s); Sleep s])) + n)%nat ->
                 List.length (sleeps (log st')) =
                 (List.length (sleeps (log st)) + S n)%nat).
      { intros n H. rewrite H, sleeps_app, Hsl, length_app. simpl. lia. }
      assert (Hshift : forall i v,
                 (forall j, (j < i)%nat ->
                    verdict (S (calls st) + j) = NotSatisfied) ->
                 verdict (S (calls st) + i) = v ->
                 (forall j, (j < S i)%nat ->
                    verdict (calls st + j) = NotSatisfied)
                 /\ verdict (calls st + S i) = v).
      { intros i v Hb Hi. split.
        - intros j Hj. destruct j as [|j].
          + rewrite Nat.add_0_r. exact Hcase.
          + rewrite <- (Hb j) by lia. f_equal. lia.
        - rewrite <- Hi. f_equal. lia. }
      destruct Hcases as [(Hr & k & Hk & Hs & Hbefore & Hlen' & Hafter)
                         |[(Hr & Hk & Hbefore & Hlen' & Hafter)
                          |(e & k & Hr & Hk & Hs & Hbefore & Hlen')]].
      * left. split; [exact Hr|]. exists (S k). split; [lia|].
        destruct (Hshift k _ Hbefore Hs) as (Hb' & Hs').
        split; [exact Hs'|]. split; [exact Hb'|].
        split; [apply Hsl'; exact Hlen' | exact Hafter].
      * right. left. split; [exact Hr|]. split; [lia|]. split; [|split].
        -- intros i Hi. destruct i as [|i].
           ++ rewrite Nat.add_0_r. exact Hcase.
           ++ rewrite <- (Hbefore i) by lia. f_equal. lia.
        -- apply Hsl'. exact Hlen'.
        -- intros _. destruct len as [|len].
           ++ exists s. simpl in Hloop. inversion Hloop; subst st'. simpl.
              rewrite <- !app_assoc. simpl.
              rewrite after_last_run_app.
              ** rewrite sleeps_app, (quiet_sleeps _ Hq). reflexivity.
              ** rewrite run_labels_app, (quiet_run_labels _ Hq). reflexivity.
           ++ apply Hafter. lia.
      * right. right. exists e, (S k). split; [exact Hr|]. split; [lia|].
        destruct (Hshift k _ Hbefore Hs) as (Hb' & Hs').
        split; [exact Hs'|]. split; [exact Hb'|]. apply Hsl'. exact Hlen'.
    + exists 1%nat, (Raise e). eexists. split; [reflexivity|].
      cbn [log firstn seq map List.concat].
      split; [lia|]. split; [exact Hrun|].
      split; [rewrite Herrs, app_nil_r; reflexivity|].
      right. right. exists e, 0%nat. rewrite Nat.add_0_r.
      repeat split; try lia.
      * exact Hcase.
      * rewrite Hsl. lia.
Qed.

End Loop.

(** ** Whole runs of [execute_command] *)

Section Runs.

Variable py_eval : Eval.
Variable proc : nat -> list string -> Q -> Result CompletedProcess.
Variable rnd : nat -> Q.
Variables (command : list string) (condition : string) (attempts : Z).
Variables (delay backoff max_delay jitter timeout : Q).

Local Abbreviation verdict_at :=
  (attempt_verdict py_eval proc rnd command condition attempts
     delay backoff max_delay jitter timeout).

Local Abbreviation reported :=
  (invocation_eval_error py_eval proc rnd command condition attempts
     delay backoff max_delay jitter timeout).

Local Abbreviation exec :=
  (execute_command py_eval proc rnd command condition attempts
     delay backoff max_delay jitter timeout initial_state).


Hypothesis delays_ok : accepted_delays attempts delay max_delay jitter.
Hypothesis rnd_ok : unit_interval rnd.

(** The three ways a run ends under a policy with accepted delays: success
    at the first satisfied attempt [k], after [k] invocations and [k - 1]
    sleeps; exhaustion, after [attempts] invocations, none satisfied, and as
    many sleeps; or an exception that is not an [Exception], at the first
    attempt [k] that does not come out as not satisfied. *)
Lemma execute_command_cases :
  exists (r : Result bool) (st' : State),
    exec = (r, st')
    /\ eval_errors (log st')
       = List.concat (map reported (seq 0 (invocations (log st'))))
    /\ ((r = Normal true
         /\ exists k, 1 <= k <= attempts
            /\ Z.of_nat (invocations (log st')) = k
            /\ verdict_at k = Satisfied
            /\ (forall j, 1 <= j < k -> verdict_at j = NotSatisfied)
            /\ Z.of_nat (List.length (sleeps (log st'))) = k - 1
            /\ sleeps (after_last_run (log st')) = [])
        \/ (r = Normal false
            /\ invocations (log st') = Z.to_nat attempts
            /\ (forall j, 1 <= j <= attempts -> verdict_at j = NotSatisfied)
            /\ List.length (sleeps (log st')) = Z.to_nat attempts
            /\ (1 <= attempts ->
                exists s, sleeps (after_last_run (log st')) = [s]))
        \/ (exists e k,
              r = Raise e
              /\ 1 <= k <= attempts
              /\ Z.of_nat (invocations (log st')) = k
              /\ verdict_at k = Leaves e
              /\ (forall j, 1 <= j < k -> verdict_at j = NotSatisfied)
              /\ Z.of_nat (List.length (sleeps (log st'))) = k - 1)).
Proof.
  unfold execute_command. rewrite py_range_from_1.
  destruct (retry_loop_spec py_eval proc rnd command condition attempts
              delay backoff max_delay jitter timeout delays_ok rnd_ok
              (Z.to_nat attempts) initial_state)
    as (m & r & st' & Hloop & Hm & Hl & He & Hcase).
  { reflexivity. }
  { destruct delays_ok as (Ha & _). simpl. lia. }
  cbv zeta in Hloop, Hl, He, Hcase.
  change (calls initial_state) with 0%nat in *.
  change (log initial_state) with (@nil Event) in *.
  cbn [run_labels eval_errors sleeps List.length app Nat.add] in *.
  assert (Hinv : invocations (log st') = m).
  { unfold invocations. rewrite Hl, length_firstn, length_map, length_seq.
    lia. }
  assert (Hverdict : forall i, verdict_at (Z.of_nat (S i))
                     = invocation_verdict py_eval proc rnd command condition
                         attempts delay backoff max_delay jitter timeout i).
  { intros i. unfold attempt_verdict. f_equal. lia. }
  assert (Hbefore' : forall k,
             (forall i, (i < k)%nat ->
                invocation_verdict py_eval proc rnd command condition attempts
                  delay backoff max_delay jitter timeout i = NotSatisfied) ->
             forall j, 1 <= j < Z.of_nat (S k) -> verdict_at j = NotSatisfied).
  { intros k Hb j Hj. unfold attempt_verdict. apply Hb. lia. }
  exists r, st'. split; [exact Hloop|]. split; [rewrite He, Hinv; reflexivity|].
  destruct Hcase as [(Hr & k & Hk & Hs & Hbefore & Hlen & Hafter)
                    |[(Hr & Hk & Hbefore & Hlen & Hafter)
                     |(e & k & Hr & Hk & Hs & Hbefore & Hlen)]].
  - left. split; [exact Hr|]. exists (Z.of_nat (S k)).
    split; [lia|]. split; [rewrite Hinv, Hk; reflexivity|].
    split; [rewrite Hverdict; exact Hs|].
    split; [apply Hbefore'; exact Hbefore|].
    split; [rewrite Hlen; lia | exact Hafter].
  - right. left. split; [exact Hr|].
    split; [rewrite Hinv; exact Hk|]. split; [|split].
    + intros j Hj. unfold attempt_verdict. apply Hbefore. lia.
    + rewrite Hlen. lia.
    + intros Ha. apply Hafter. lia.
  - right. right. exists e, (Z.of_nat (S k)).
    split; [exact Hr|]. split; [lia|].
    split; [rewrite Hinv, Hk; reflexivity|].
    split; [rewrite Hverdict; exact Hs|].
    split; [apply Hbefore'; exact Hbefore|].
    rewrite Hlen. lia.
Qed.

(** After the attempt that satisfies the predicate there is no sleep. *)
Lemma no_sleep_after_success :
  fst exec = Normal true -> sleeps (after_last_run (log (snd exec))) = [].
Proof.
  destruct execute_command_cases as (r & st' & Hexec & _ & Hcase).
  rewrite Hexec. simpl. intros Hb.
  destruct Hcase as [(_ & k & _ & _ & _ & _ & _ & Hafter)
                    |[(Hb' & _)|(e & k & Hb' & _)]].
  - exact Hafter.
  - congruence.
  - congruence.
Qed.

(** After the final attempt of an exhausted run there is one more sleep. *)
Lemma sleep_after_exhaustion :
  1 <= attempts -> fst exec = Normal false ->
  exists s, sleeps (after_last_run (log (snd exec))) = [s].
Proof.
  destruct execute_command_cases as (r & st' & Hexec & _ & Hcase).
  rewrite Hexec. simpl. intros Ha Hb.
  destruct Hcase as [(Hb' & _)|[(_ & _ & _ & _ & Hafter)|(e & k & Hb' & _)]].
  - congruence.
  - apply Hafter. exact Ha.
  - congruence.
Qed.

End Runs.

(** ** The properties of the specification *)

(** C1, on the code. The default condition names [result], which is not among
    the globals given to [eval]: its evaluation raises NameError on every
    attempt, so the default predicate is never satisfied, not even when the
    command exits with status 0; a run of a command that exits with status 0
    makes all five attempts and exits with status 1. *)
Theorem C1_default_condition_is_never_satisfied :
  (forall (code : Z) (out err : string),
     satisfied Py.eval (ns_condition (parse_args (only_command ["true"])))
       (Normal (mkCompleted code out err)) = false)
  /\ (forall (out err : string) (st : State),
        evaluate_condition Py.eval out err default_condition st
        = (Normal (VBool false),
           mkState (calls st) (draws st)
             (log st ++ [Print (LEvalError (NameError "result"))])))
  /\ let r := run fragment_eval (always_completes 0 EmptyString EmptyString)
                no_randomness (only_command ["true"]) in
     exit_status (fst r) = 1 /\ invocations (log (snd r)) = 5%nat.
Proof.
  split; [|split].
  - intros code out err. reflexivity.
  - intros out err st. rewrite evaluate_condition_spec.
    assert (E : Py.eval default_condition (condition_globals out err)
                = ([], inr (NameError "result"))) by reflexivity.
    rewrite E. reflexivity.
  - split; reflexivity.
Qed.

(** C2, on the code. With [-d 1 -b 3 -m 30] and no jitter, a command that
    always fails is followed by sleeps of 1, 2 and 4 seconds: the delay grows
    by the factor 2, where the formula of the specification, with the
    multiplier 3, gives 3 seconds after the second attempt. *)
Theorem C2_multiplier_is_not_used :
  let r := execute_command fragment_eval
             (always_completes 1 EmptyString EmptyString) no_randomness
             ["false"] "False" 3 1 3 30 0 10 initial_state in
  Forall2 Qeq (sleeps (log (snd r))) [1; 2; 4]%Q
  /\ (sleep_time 2 1 30 0 0 == 2)%Q
  /\ (spec_delay 2 1 3 30 0 == 3)%Q
  /\ ~ (sleep_time 2 1 30 0 0 == spec_delay 2 1 3 30 0)%Q.
Proof.
  split; [|split; [|split]].
  - vm_compute. repeat constructor.
  - reflexivity.
  - reflexivity.
  - vm_compute. discriminate.
Qed.

(** C4, on the code. With one attempt allowed and a command that fails, the
    program sleeps for one second after that final attempt, and only then
    reports that the attempts are exhausted. *)
Theorem C4_sleep_after_final_attempt :
  let r := execute_command fragment_eval
             (always_completes 1 EmptyString EmptyString) no_randomness
             ["false"] "False" 1 1 2 30 0 10 initial_state in
  fst r = Normal false
  /\ invocations (log (snd r)) = 1%nat
  /\ sleeps (after_last_run (log (snd r))) = [1%Q]
  /\ skipn 7 (log (snd r))
     = [Print (LSleeping 1); Sleep 1; Print LMaxAttempts].
Proof. repeat split; reflexivity. Qed.

(** C10. With [attempts <= 0] the loop body never runs: no invocation is
    made, [execute_command] returns [False], and the program prints only the
    line about the maximum of attempts and exits with status 1. *)
Theorem C10_no_attempts
    (py_eval : Eval)
    (proc : nat -> list string -> Q -> Result CompletedProcess)
    (rnd : nat -> Q) (args : Namespace) :
  ns_attempts args <= 0 ->
  ns_command args <> [] ->
  let e := execute_command py_eval proc rnd (ns_command args)
             (ns_condition args) (ns_attempts args) (ns_delay args)
             (ns_backoff args) (ns_max_delay args) (ns_jitter args)
             (ns_timeout args) initial_state in
  let r := main py_eval proc rnd args initial_state in
  fst e = Normal false
  /\ invocations (log (snd e)) = 0%nat
  /\ exit_status (fst r) = 1
  /\ invocations (log (snd r)) = 0%nat
  /\ log (snd r) = [Print LMaxAttempts].
Proof.
  intros Ha Hcmd e r. subst e r. unfold main.
  destruct (ns_command args) as [|c cs]; [congruence|].
  unfold bind, execute_command. rewrite (py_range_empty _ Ha). simpl.
  repeat split; reflexivity.
Qed.

(** An instance of C10: [-a 0]. *)
Lemma C10_no_attempts_witness :
  let r := main fragment_eval (always_completes 0 EmptyString EmptyString)
             no_randomness
             (parse_args (with_condition ["true"] 0 "True")) initial_state in
  exit_status (fst r) = 1 /\ log (snd r) = [Print LMaxAttempts].
Proof.
  destruct (C10_no_attempts fragment_eval
              (always_completes 0 EmptyString EmptyString) no_randomness
              (parse_args (with_condition ["true"] 0 "True")))
    as (_ & _ & H1 & _ & H2).
  - simpl; lia.
  - discriminate.
  - split; [exact H1 | exact H2].
Defined.

(** ** Evaluation of conditions *)

(** Induction on expressions that reaches the expressions inside the lists of
    [ECompare] and [ECall]. *)
Lemma expr_nested_ind (P : expr -> Prop) :
  (forall id, P (EName id)) ->
  (forall v, P (EConst v)) ->
  (forall e attr, P e -> P (EAttr e attr)) ->
  (forall e, P e -> P (ENot e)) ->
  (forall op l r, P l -> P r -> P (EBoolOp op l r)) ->
  (forall l rest, P l -> Forall (fun p => P (snd p)) rest -> P (ECompare l rest)) ->
  (forall f args, P f -> Forall P args -> P (ECall f args)) ->
  forall e, P e.
Proof.
  intros Hname Hconst Hattr Hnot Hbool Hcmp Hcall.
  fix IH 1. intros e. destruct e as [id|v|e attr|e|op l r|l rest|f args].
  - apply Hname.
  - apply Hconst.
  - apply Hattr, IH.
  - apply Hnot, IH.
  - apply Hbool; apply IH.
  - apply Hcmp; [apply IH|].
    induction rest as [|[op r] rest IHrest]; constructor; [apply IH | exact IHrest].
  - apply Hcall; [apply IH|].
    induction args as [|a args IHargs]; constructor; [apply IH | exact IHargs].
Qed.

Lemma ev_bind_quiet {A B} (m : ev A) (f : A -> ev B) :
  fst m = [] -> (forall a, fst (f a) = []) -> fst (ev_bind m f) = [].
Proof.
  intros Hm Hf. unfold ev_bind. destruct m as [w [a|e]]; simpl in *; subst w.
  - specialize (Hf a). destruct (f a) as [w' r]. simpl in *. exact Hf.
  - reflexivity.
Qed.

(** An expression of the grammar is evaluated without any effect. *)
Lemma in_grammar_quiet (g : globals) (e : expr) :
  in_grammar e = true -> fst (eval_expr g e) = [].
Proof.
  induction e as [id|v|e attr IHe|e IHe|op l r IHl IHr|l rest IHl IHrest|f args _ _]
    using expr_nested_ind; simpl; intros H; try discriminate.
  - destruct (lookup id g); [reflexivity|].
    destruct (builtin id); reflexivity.
  - reflexivity.
  - apply ev_bind_quiet; [apply IHe; exact H | reflexivity].
  - apply andb_true_iff in H. destruct H as [H1 H2].
    destruct op; apply ev_bind_quiet; try (apply IHl; exact H1);
      intros v; destruct (truthy v); try reflexivity; apply IHr; exact H2.
  - apply andb_true_iff in H. destruct H as [H1 H2].
    apply ev_bind_quiet; [apply IHl; exact H1|].
    clear IHl H1 l. induction rest as [|[op r] rest IHchain]; intros lv.
    + reflexivity.
    + simpl in H2. apply andb_true_iff in H2. destruct H2 as [Hr Hrest].
      inversion IHrest as [|? ? Hhead Htail]; subst.
      apply ev_bind_quiet; [apply Hhead; exact Hr|]. intros rv.
      destruct (compare_values op lv rv) as [b|err]; [|reflexivity].
      destruct rest as [|next rest']; [reflexivity|].
      destruct (truthy b); [|reflexivity].
      pose proof (IHchain Htail Hrest rv) as Hc.
      match goal with
      | |- context [let (_, _) := ?c in _] => destruct c as [w' r0]
      end.
      exact Hc.
Qed.

(** C8, as the code has it. A condition that lies in the predicate grammar of
    the specification is evaluated without side effects, whatever the command
    printed; conditions outside of it are evaluated too (see the
    counterexample). *)
Theorem C8_grammar_has_no_side_effects
    (condition : string) (e : expr) (stdout stderr : string) :
  Py.parse condition = Some e ->
  in_grammar e = true ->
  no_side_effects condition (condition_globals stdout stderr)
  /\ forall st,
       log (snd (evaluate_condition Py.eval stdout stderr condition st))
       = log st
       \/ exists err,
            log (snd (evaluate_condition Py.eval stdout stderr condition st))
            = log st ++ [Print (LEvalError err)].
Proof.
  intros Hparse Hg.
  assert (Hq : fst (Py.eval condition (condition_globals stdout stderr)) = []).
  { unfold Py.eval. rewrite Hparse. apply in_grammar_quiet. exact Hg. }
  split; [exact Hq|]. intros st.
  rewrite evaluate_condition_spec.
  destruct (Py.eval condition (condition_globals stdout stderr)) as [w [v|err]];
    simpl in Hq; subst w; simpl.
  - left. apply app_nil_r.
  - destruct (is_Exception err).
    + right. exists err. reflexivity.
    + left. apply app_nil_r.
Qed.

(** An instance of C8: a containment test on attacker-chosen output. *)
Lemma C8_grammar_has_no_side_effects_witness :
  no_side_effects "'hello' in stdout and not stderr != 'x'"
    (condition_globals "print(1)" "__import__").
Proof.
  eapply (C8_grammar_has_no_side_effects
            "'hello' in stdout and not stderr != 'x'").
  - reflexivity.
  - reflexivity.
Defined.

(** The claim of C8 fails on the code: the condition [print(stdout)] is a call,
    which the grammar does not have, and its evaluation prints the output of
    the command. *)
Lemma C8_counterexample :
  Py.parse "print(stdout)" = Some (ECall (EName "print") [EName "stdout"])
  /\ in_grammar (ECall (EName "print") [EName "stdout"]) = false
  /\ ~ no_side_effects "print(stdout)" (condition_globals "text" EmptyString).
Proof.
  split; [reflexivity|]. split; [reflexivity|].
  unfold no_side_effects. vm_compute. discriminate.
Qed.

(** ** A condition that cannot be compiled *)

Lemma concat_map_singletons {A B} (p : A -> bool) (x : B) (l : list A) :
  List.concat (map (fun a => if p a then [x] else []) l)
  = map (fun _ => x) (filter p l).
Proof.
  induction l as [|a l IH]; simpl; [reflexivity|].
  destruct (p a); simpl; rewrite IH; reflexivity.
Qed.

(** C3, as the code has it. A condition whose compilation fails does not abort
    the run: each evaluation raises SyntaxError inside [evaluate_condition],
    which reports it and counts it as "condition not met". With between 1 and
    1024 attempts and delays [time.sleep] accepts, the command is invoked
    [attempts] times, the error is reported once for every invocation that
    completed, and the program exits with status 1. *)
Theorem C3_malformed_condition_is_retried
    (py_eval : Eval)
    (proc : nat -> list string -> Q -> Result CompletedProcess)
    (rnd : nat -> Q) (args : Namespace) :
  (forall ctx g, snd (py_eval ctx (ns_condition args) g) = inr SyntaxError) ->
  ns_command args <> [] ->
  1 <= ns_attempts args ->
  accepted_delays (ns_attempts args) (ns_delay args) (ns_max_delay args)
    (ns_jitter args) ->
  unit_interval rnd ->
  raises_exceptions_only proc ->
  let r := main py_eval proc rnd args initial_state in
  exit_status (fst r) = 1
  /\ Z.of_nat (invocations (log (snd r))) = ns_attempts args
  /\ eval_errors (log (snd r))
     = map (fun _ => SyntaxError)
         (filter (fun n => completes (proc n (ns_command args) (ns_timeout args)))
            (seq 0 (Z.to_nat (ns_attempts args)))).
Proof.
  intros Hsyn Hcmd Ha Hd Hr Hproc r. subst r. unfold main.
  destruct (ns_command args) as [|c cs]; [congruence|].
  rewrite bind_unfold.
  destruct (execute_command_cases py_eval proc rnd (c :: cs)
              (ns_condition args) (ns_attempts args) (ns_delay args)
              (ns_backoff args) (ns_max_delay args) (ns_jitter args)
              (ns_timeout args) Hd Hr) as (b & st' & Hexec & Herr & Hcase).
  rewrite Hexec.
  assert (Hverdict : forall k,
             attempt_verdict py_eval proc rnd (c :: cs) (ns_condition args)
               (ns_attempts args) (ns_delay args) (ns_backoff args)
               (ns_max_delay args) (ns_jitter args) (ns_timeout args) k
             = NotSatisfied).
  { intros k. unfold attempt_verdict, invocation_verdict, verdict_in,
      evaluation, evaluator_at.
    destruct (proc _ _ _) as [result|e] eqn:Hp.
    - rewrite Hsyn. reflexivity.
    - simpl. rewrite (Hproc _ _ _ _ Hp). reflexivity. }
  assert (Hrep : forall n,
             invocation_eval_error py_eval proc rnd (c :: cs)
               (ns_condition args) (ns_attempts args) (ns_delay args)
               (ns_backoff args) (ns_max_delay args) (ns_jitter args)
               (ns_timeout args) n
             = if completes (proc n (c :: cs) (ns_timeout args))
               then [SyntaxError] else []).
  { intros n. unfold invocation_eval_error, eval_error_in, evaluation,
      evaluator_at.
    destruct (proc _ _ _) as [result|e]; [|reflexivity].
    rewrite Hsyn. reflexivity. }
  destruct Hcase as [(Hb & k & Hk & _ & Hs & _)
                    |[(Hb & Hn & _)|(e & k & Hb & Hk & _ & Hs & _)]];
    subst b; try (rewrite Hverdict in Hs; discriminate Hs).
  simpl. split; [reflexivity|]. split; [lia|].
  rewrite Herr, Hn.
  rewrite (map_ext _ _ Hrep). apply concat_map_singletons.
Qed.

(** An instance: the condition [stdout ==] is not an expression; the command
    is run twice all the same, and the error is reported twice. *)
Lemma C3_malformed_condition_is_retried_witness :
  let r := run fragment_eval (always_completes 0 "ok" EmptyString) no_randomness
             (with_condition ["true"] 2 "stdout ==") in
  exit_status (fst r) = 1
  /\ Z.of_nat (invocations (log (snd r))) = 2
  /\ eval_errors (log (snd r)) = [SyntaxError; SyntaxError].
Proof.
  apply (C3_malformed_condition_is_retried fragment_eval
           (always_completes 0 "ok" EmptyString) no_randomness
           (parse_args (with_condition ["true"] 2 "stdout =="))).
  - intros ctx g. reflexivity.
  - discriminate.
  - simpl; lia.
  - unfold accepted_delays, sleep_safe, Qle; simpl. repeat split; lia.
  - intros n. unfold no_randomness, Qle, Qlt; simpl; lia.
  - intros n command timeout e H. discriminate H.
Defined.

(** The claim of C3 fails on the code: the condition [stdout ==] is malformed,
    and the run does not abort before the first attempt. *)
Lemma C3_counterexample :
  ~ (malformed "stdout ==" ->
     aborts_before_any_attempt
       (run fragment_eval (always_completes 0 "ok" EmptyString) no_randomness
          (with_condition ["true"] 2 "stdout =="))).
Proof.
  intros H. assert (Hm : malformed "stdout ==") by reflexivity.
  specialize (H Hm). vm_compute in H. discriminate.
Qed.

(** ** How many attempts are made *)




(** ** The exit status *)




(** ** The value of [-b/--backoff] *)

Section Backoff.

Variable py_eval : Eval.
Variable proc : nat -> list string -> Q -> Result CompletedProcess.
Variable rnd : nat -> Q.
Variables (command : list string) (condition : string) (attempts : Z).
Variables (delay max_delay jitter timeout b1 b2 : Q).

Hypothesis blind : ignores_backoff py_eval condition.

Lemma attempt_once_ignores_backoff (attempt : Z) (st : State) :
  attempt_once py_eval proc rnd attempt command condition attempts
    delay b1 max_delay jitter timeout st
  = attempt_once py_eval proc rnd attempt command condition attempts
      delay b2 max_delay jitter timeout st.
Proof.
  rewrite !attempt_once_events. cbv zeta.
  assert (Hev : forall result,
             evaluation (evaluator_at py_eval rnd command condition attempts
                           delay b1 max_delay jitter timeout attempt (draws st))
               condition result
             = evaluation (evaluator_at py_eval rnd command condition attempts
                             delay b2 max_delay jitter timeout attempt (draws st))
                 condition result).
  { intros result. unfold evaluation, evaluator_at.
    rewrite <- (blind (mkLocals command condition attempts delay b2 max_delay
                         jitter timeout attempt result) _ b1).
    reflexivity. }
  unfold attempt_result, attempt_events, eval_events, eval_error_in,
    draws_in, verdict_in.
  destruct (proc (calls st) command timeout) as [result|e]; [|reflexivity].
  rewrite Hev. reflexivity.
Qed.

Lemma retry_loop_ignores_backoff (todo : list Z) : forall st,
  retry_loop py_eval proc rnd todo command condition attempts
    delay b1 max_delay jitter timeout st
  = retry_loop py_eval proc rnd todo command condition attempts
      delay b2 max_delay jitter timeout st.
Proof.
  induction todo as [|attempt todo IH]; intros st; [reflexivity|].
  simpl. rewrite !bind_unfold, attempt_once_ignores_backoff.
  destruct (attempt_once _ _ _ _ _ _ _ _ b2 _ _ _ st) as [[[b|]|e] st1];
    try reflexivity.
  rewrite !bind_unfold.
  destruct (backoff_sleep rnd attempt delay max_delay jitter st1)
    as [[[]|e] st2]; [apply IH | reflexivity].
Qed.

End Backoff.

(** C9, as the code has it. The program itself never reads the value given
    for [-b/--backoff]: two runs that differ only in it behave the same (same
    result, same log) provided the evaluation of the condition does not
    depend on it either, as is the case for every condition that does not
    reach for the frames of its callers or for [sys.argv]. *)
Theorem C9_backoff_value_is_ignored
    (py_eval : Eval)
    (proc : nat -> list string -> Q -> Result CompletedProcess)
    (rnd : nat -> Q) (args : Namespace) (b1 b2 : Q) (st : State) :
  ignores_backoff py_eval (ns_condition args) ->
  main py_eval proc rnd (with_backoff b1 args) st
  = main py_eval proc rnd (with_backoff b2 args) st
  /\ execute_command py_eval proc rnd (ns_command args) (ns_condition args)
       (ns_attempts args) (ns_delay args) b1 (ns_max_delay args)
       (ns_jitter args) (ns_timeout args) st
     = execute_command py_eval proc rnd (ns_command args) (ns_condition args)
         (ns_attempts args) (ns_delay args) b2 (ns_max_delay args)
         (ns_jitter args) (ns_timeout args) st.
Proof.
  intros Hblind.
  assert (H : execute_command py_eval proc rnd (ns_command args)
                (ns_condition args) (ns_attempts args) (ns_delay args) b1
                (ns_max_delay args) (ns_jitter args) (ns_timeout args) st
              = execute_command py_eval proc rnd (ns_command args)
                  (ns_condition args) (ns_attempts args) (ns_delay args) b2
                  (ns_max_delay args) (ns_jitter args) (ns_timeout args) st).
  { unfold execute_command. apply retry_loop_ignores_backoff. exact Hblind. }
  split; [|exact H].
  unfold main. simpl.
  destruct (ns_command args) as [|c cs]; [reflexivity|].
  rewrite !bind_unfold, H. reflexivity.
Qed.

(** An instance of C9: a condition of the fragment, with [-b 2] and
    [-b 3]. *)
Lemma C9_backoff_value_is_ignored_witness :
  main fragment_eval flaky no_randomness
    (with_backoff 2 (parse_args (with_condition ["job"] 5 "'ok' in stdout")))
    initial_state
  = main fragment_eval flaky no_randomness
      (with_backoff 3 (parse_args (with_condition ["job"] 5 "'ok' in stdout")))
      initial_state.
Proof.
  apply (C9_backoff_value_is_ignored fragment_eval flaky no_randomness
           (parse_args (with_condition ["job"] 5 "'ok' in stdout")) 2 3
           initial_state).
  intros l gen b g. reflexivity.
Defined.

(** The claim of C9 fails on the code: a condition can read the local
    [backoff] of [execute_command]; with the condition [reading_backoff] the
    run with [-b 3] succeeds at once and the run with [-b 2] exhausts its
    attempts. *)
Lemma C9_counterexample :
  let args := parse_args (with_condition ["true"] 2 reading_backoff) in
  let world := always_completes 0 EmptyString EmptyString in
  main eval_reading_backoff world no_randomness (with_backoff 3 args)
    initial_state
  <> main eval_reading_backoff world no_randomness (with_backoff 2 args)
       initial_state.
Proof. vm_compute. discriminate. Qed.

(** ** Invocation errors and timeouts *)

(** Under a policy with accepted delays, an [Exception] raised by
    [subprocess.run] on attempt [k] (an invocation error or a timeout) makes
    that attempt a failed one, and attempt [k + 1] is made when the run
    reaches attempt [k] and attempts remain. *)
Lemma invocation_error_is_retried
    (py_eval : Eval)
    (proc : nat -> list string -> Q -> Result CompletedProcess)
    (rnd : nat -> Q) (command : list string) (condition : string)
    (attempts : Z) (delay backoff max_delay jitter timeout : Q)
    (k : Z) (e : exn) :
  accepted_delays attempts delay max_delay jitter ->
  unit_interval rnd ->
  let r := execute_command py_eval proc rnd command condition attempts
             delay backoff max_delay jitter timeout initial_state in
  1 <= k <= attempts ->
  proc (Z.to_nat (k - 1)) command timeout = Raise e ->
  is_Exception e = true ->
  attempt_verdict py_eval proc rnd command condition attempts delay backoff
    max_delay jitter timeout k = NotSatisfied
  /\ (k <= Z.of_nat (invocations (log (snd r))) ->
      k <= Z.of_nat (List.length (sleeps (log (snd r))))
      /\ (k < attempts -> k + 1 <= Z.of_nat (invocations (log (snd r))))
      /\ (k = attempts -> fst r = Normal false)).
Proof.
  intros Hd Hr r Hk Hraise He.
  assert (Hfail : attempt_verdict py_eval proc rnd command condition attempts
                    delay backoff max_delay jitter timeout k = NotSatisfied).
  { unfold attempt_verdict, invocation_verdict, verdict_in.
    rewrite Hraise. simpl. rewrite He. reflexivity. }
  split; [exact Hfail|].
  destruct (execute_command_cases py_eval proc rnd command condition attempts
              delay backoff max_delay jitter timeout Hd Hr)
    as (b & st' & Hexec & _ & Hcase).
  subst r. rewrite Hexec. simpl. intros Hreach.
  destruct Hcase as [(Hb & k' & Hk' & Hn & Hs & _ & Hlen & _)
                    |[(Hb & Hn & _ & Hlen & _)
                     |(e' & k' & Hb & Hk' & Hn & Hs & _ & Hlen)]]; subst b.
  - assert (k <> k') by (intros ->; congruence).
    repeat split; try lia; try (intros ->; lia).
  - repeat split; lia.
  - assert (k <> k') by (intros ->; congruence).
    repeat split; try lia; try (intros ->; lia).
Qed.

(** C7, on the code. With [-a 1026 -d 0 -t 0.01] and a command that runs out
    of time on every attempt, the timeout of attempt 1025 is caught, but the
    computation of the delay after it raises OverflowError
    ([2 ** 1024] does not fit a float): the run is aborted by that exception
    after 1025 invocations, although one attempt remains. *)
Theorem C7_timeout_on_attempt_1025_is_fatal :
  let args := parse_args
                (mkCommandLine ["sleep"; "1"] (Some 1026) (Some 0%Q) None None
                   None (Some (1 # 100)%Q) None) in
  let r := main fragment_eval always_times_out no_randomness args
             initial_state in
  fst r = Raise OverflowError
  /\ invocations (log (snd r)) = 1025%nat
  /\ Z.of_nat (invocations (log (snd r))) < ns_attempts args
  /\ attempt_verdict fragment_eval always_times_out no_randomness
       (ns_command args) (ns_condition args) (ns_attempts args)
       (ns_delay args) (ns_backoff args) (ns_max_delay args) (ns_jitter args)
       (ns_timeout args) 1025 = NotSatisfied.
Proof.
  vm_compute. repeat split; reflexivity.
Qed.

(** ** More on the loop, whatever the policy *)

Lemma map_fst_combine {A B} (l : list A) : forall (l' : list B),
  map fst (combine l l') = firstn (List.length l') l.
Proof.
  induction l as [|a l IH]; intros [|b l']; simpl; try reflexivity.
  - rewrite IH. reflexivity.
Qed.

(** What leaves one attempt is not an [Exception]. *)
Lemma attempt_result_raises (py_of : CompletedProcess -> Evaluator)
    (condition : string) (r : Result CompletedProcess) (e : exn) :
  attempt_result py_of condition r = Raise e -> is_Exception e = false.
Proof.
  unfold attempt_result, verdict_in, verdict_of.
  destruct r as [result|e'].
  - destruct (snd (evaluation py_of condition result)) as [v|e'].
    + destruct (truthy v); discriminate.
    + destruct (is_Exception e') eqn:He; [discriminate|].
      intros H. inversion H. subst e'. exact He.
  - destruct (is_Exception e') eqn:He; [discriminate|].
    intros H. inversion H. subst e'. exact He.
Qed.

Section Endings.

Variable py_eval : Eval.
Variable proc : nat -> list string -> Q -> Result CompletedProcess.
Variable rnd : nat -> Q.
Variables (command : list string) (condition : string) (attempts : Z).
Variables (delay backoff max_delay jitter timeout : Q).

Local Abbreviation loop todo :=
  (retry_loop py_eval proc rnd todo command condition attempts
     delay backoff max_delay jitter timeout).

(** The loop, whatever the policy: the sleeps it makes follow the first
    indices it was given, each with the delay of its index; it sleeps after
    every invocation but the one that ends it with [True] or with an
    exception; and its last line tells how it ended. *)
Lemma retry_loop_ending (todo : list Z) : forall st,
  let r := loop todo st in
  exists us : list Q,
    (List.length us <= List.length todo)%nat
    /\ Forall (fun u => exists i, u = rnd i) us
    /\ Forall (fun a => a <= 1024) (firstn (List.length us) todo)
    /\ sleeps (log (snd r))
       = sleeps (log st)
         ++ map (fun p => sleep_time (fst p) delay max_delay jitter (snd p))
              (combine todo us)
    /\ match fst r with
       | Normal true =>
           invocations (log (snd r))
           = (invocations (log st) + S (List.length us))%nat
           /\ exists l, log (snd r) = l ++ [Print LConditionMet]
       | Normal false =>
           invocations (log (snd r))
           = (invocations (log st) + List.length us)%nat
           /\ List.length us = List.length todo
           /\ exists l, log (snd r) = l ++ [Print LMaxAttempts]
       | Raise e =>
           invocations (log (snd r))
           = (invocations (log st) + S (List.length us))%nat
           /\ left_by e (nth_error todo (List.length us)) (log (snd r))
       end.
Proof.
  induction todo as [|attempt todo IH]; intros st; cbv zeta.
  - exists []. simpl. split; [lia|]. split; [constructor|].
    split; [constructor|]. split.
    + rewrite sleeps_app. reflexivity.
    + rewrite invocations_app. unfold invocations at 2. simpl.
      split; [lia|]. split; [reflexivity|]. exists (log st). reflexivity.
  - simpl retry_loop. rewrite bind_unfold, attempt_once_events.
    match goal with |- context [attempt_events ?p ?c ?a ?cmd ?n ?t ?r] =>
      destruct (attempt_events_shape p c a cmd n t r)
        as (evs & -> & Hq & _ & Hmet);
      pose proof (attempt_result_raises p c r) as Hleave;
      unfold attempt_result in *;
      destruct (verdict_in p c r) as [| |e] end.
    + exists []. simpl. split; [lia|]. split; [constructor|].
      split; [constructor|].
      rewrite sleeps_app, invocations_app. unfold invocations at 2. simpl.
      rewrite (quiet_sleeps _ Hq), (quiet_run_labels _ Hq). simpl.
      split; [reflexivity|]. split; [lia|].
      destruct (Hmet eq_refl) as (l & ->).
      exists (log st ++ Run attempt command timeout :: l).
      rewrite <- app_assoc. reflexivity.
    + rewrite bind_unfold, backoff_sleep_spec. cbv zeta.
      set (log1 := log st ++ Run attempt command timeout :: evs).
      assert (Hinv : invocations log1 = S (invocations (log st))).
      { subst log1. rewrite invocations_app. unfold invocations at 2. simpl.
        rewrite (quiet_run_labels _ Hq). simpl. lia. }
      assert (Hsl : sleeps log1 = sleeps (log st)).
      { subst log1. rewrite sleeps_app. simpl. rewrite (quiet_sleeps _ Hq).
        apply app_nil_r. }
      simpl draws. simpl log. simpl calls. fold log1.
      match goal with |- context [sleep_time attempt delay max_delay jitter ?u] =>
        set (s := sleep_time attempt delay max_delay jitter u);
        assert (Hu : exists i, u = rnd i) by (eexists; reflexivity);
        set (u0 := u) in * end.
      destruct (1024 <=? attempt - 1) eqn:Hbig.
      { exists []. simpl. split; [lia|]. split; [constructor|].
        split; [constructor|]. fold log1. rewrite Hsl, Hinv, app_nil_r.
        split; [reflexivity|]. split; [lia|].
        right. left. split; [reflexivity|]. exists attempt.
        apply Z.leb_le in Hbig. split; [reflexivity | lia]. }
      apply Z.leb_gt in Hbig.
      destruct (Qle_bool 0 s) eqn:H0; [destruct (Qle_bool s sleep_limit) eqn:H1|].
      * match goal with |- context [retry_loop _ _ _ _ _ _ _ _ _ _ _ _ ?s2] =>
          destruct (IH s2) as (us & Hlen & Hus & Hsmall & Hs & Hend);
          set (st2 := s2) in * end.
        cbv zeta in Hs, Hend.
        change (log st2) with (log1 ++ [Print (LSleeping s); Sleep s]) in *.
        assert (Hinv2 : invocations (log1 ++ [Print (LSleeping s); Sleep s])
                        = S (invocations (log st))).
        { rewrite invocations_app, Hinv. unfold invocations at 2. simpl. lia. }
        rewrite Hinv2 in Hend.
        exists (u0 :: us). simpl List.length. split; [lia|].
        split; [constructor; assumption|].
        split; [simpl; constructor; [lia | exact Hsmall]|].
        split.
        { rewrite Hs, sleeps_app, Hsl. simpl. rewrite <- app_assoc.
          reflexivity. }
        simpl nth_error.
        destruct (fst (loop todo st2)) as [[|]|e].
        -- destruct Hend as (Hn & Hl). split; [lia | exact Hl].
        -- destruct Hend as (Hn & Hl & Hl'). split; [lia|].
           split; [lia | exact Hl'].
        -- destruct Hend as (Hn & Hl). split; [lia | exact Hl].
      * exists []. simpl. split; [lia|]. split; [constructor|].
        split; [constructor|].
        rewrite sleeps_app, invocations_app, Hsl, Hinv.
        unfold invocations at 2. simpl. rewrite app_nil_r.
        split; [reflexivity|]. split; [lia|].
        right. right. exists log1, s. split; [reflexivity|]. right.
        split; [reflexivity|].
        destruct (Qlt_le_dec sleep_limit s) as [L|L].
        -- eapply Qlt_trans; [|exact L].
           unfold sleep_safe, sleep_limit, Qlt. simpl. lia.
        -- apply Qle_bool_iff in L. congruence.
      * exists []. simpl. split; [lia|]. split; [constructor|].
        split; [constructor|].
        rewrite sleeps_app, invocations_app, Hsl, Hinv.
        unfold invocations at 2. simpl. rewrite app_nil_r.
        split; [reflexivity|]. split; [lia|].
        right. right. exists log1, s. split; [reflexivity|]. left.
        split; [reflexivity|].
        destruct (Qlt_le_dec s 0) as [L|L]; [exact L|].
        apply Qle_bool_iff in L. congruence.
    + exists []. simpl. split; [lia|]. split; [constructor|].
      split; [constructor|].
      rewrite sleeps_app, invocations_app. unfold invocations at 2. simpl.
      rewrite (quiet_sleeps _ Hq), (quiet_run_labels _ Hq). simpl.
      split; [reflexivity|]. split; [lia|].
      left. apply Hleave. reflexivity.
Qed.

End Endings.

Lemma combine_map_l {A B C} (g : A -> B) (l : list A) : forall (l' : list C),
  combine (map g l) l' = map (fun p => (g (fst p), snd p)) (combine l l').
Proof.
  induction l as [|a l IH]; intros [|c l']; simpl; try reflexivity.
  - rewrite IH. reflexivity.
Qed.

Lemma length_combine_seq {A} (start : nat) (us : list A) :
  List.length (combine (seq start (List.length us)) us) = List.length us.
Proof. rewrite length_combine, length_seq. lia. Qed.

Section RunEndings.

Variable py_eval : Eval.
Variable proc : nat -> list string -> Q -> Result CompletedProcess.
Variable rnd : nat -> Q.
Variables (command : list string) (condition : string) (attempts : Z).
Variables (delay backoff max_delay jitter timeout : Q).

Local Abbreviation exec :=
  (execute_command py_eval proc rnd command condition attempts
     delay backoff max_delay jitter timeout initial_state).

(** A whole run, whatever the policy: sleep number [i] (counted from 0) has
    the delay of attempt [i + 1], with some value [u] of the generator. *)
Lemma execute_command_ending :
  exists us : list Q,
    (List.length us <= Z.to_nat attempts)%nat
    /\ (List.length us <= 1024)%nat
    /\ Forall (fun u => exists i, u = rnd i) us
    /\ sleeps (log (snd exec))
       = map (fun p => sleep_time (Z.of_nat (S (fst p))) delay max_delay
                         jitter (snd p))
           (combine (seq 0 (List.length us)) us)
    /\ match fst exec with
       | Normal true =>
           invocations (log (snd exec)) = S (List.length us)
           /\ exists l, log (snd exec) = l ++ [Print LConditionMet]
       | Normal false =>
           invocations (log (snd exec)) = List.length us
           /\ List.length us = Z.to_nat attempts
           /\ exists l, log (snd exec) = l ++ [Print LMaxAttempts]
       | Raise e =>
           invocations (log (snd exec)) = S (List.length us)
           /\ run_left_by e (invocations (log (snd exec))) (log (snd exec))
       end.
Proof.
  unfold execute_command.
  destruct (retry_loop_ending py_eval proc rnd command condition attempts
              delay backoff max_delay jitter timeout
              (py_range 1 (attempts + 1)) initial_state)
    as (us & Hlen & Hus & Hsmall & Hs & Hend).
  cbv zeta in Hs, Hend. rewrite py_range_length in Hlen.
  rewrite py_range_firstn in Hsmall by exact Hlen.
  change (invocations (log initial_state)) with 0%nat in Hend.
  change (sleeps (log initial_state)) with (@nil Q) in Hs.
  assert (Hm : (List.length us <= 1024)%nat).
  { destruct (List.length us) as [|m] eqn:E; [lia|].
    rewrite Forall_forall in Hsmall.
    specialize (Hsmall (Z.of_nat (S m))).
    assert (Z.of_nat (S m) <= 1024); [|lia].
    apply Hsmall. apply in_map. apply in_seq. lia. }
  exists us. split; [exact Hlen|]. split; [exact Hm|]. split; [exact Hus|].
  split.
  - rewrite Hs. simpl app.
    rewrite combine_firstn_r, py_range_firstn by exact Hlen.
    rewrite <- seq_shift, map_map, combine_map_l, map_map. reflexivity.
  - destruct (fst (retry_loop _ _ _ _ _ _ _ _ _ _ _ _ initial_state))
      as [[|]|e].
    + exact Hend.
    + destruct Hend as (Hn & Hl & Hl'). rewrite py_range_length in Hl.
      split; [exact Hn|]. split; [exact Hl | exact Hl'].
    + destruct Hend as (Hn & Hleft). split; [exact Hn|].
      destruct Hleft as [Hleft|[(He & a & Ha & Hbig)|Hleft]].
      * left. exact Hleft.
      * right. left. split; [exact He|]. rewrite Hn. simpl.
        rewrite py_range_from_1, nth_error_map, nth_error_seq in Ha.
        destruct (List.length us <? Z.to_nat attempts)%nat; [|discriminate].
        simpl in Ha. inversion Ha. lia.
      * right. right. exact Hleft.
Qed.

(** Without jitter, the sleeps of a run in closed form. *)
Lemma execute_command_sleeps :
  (jitter <= 0)%Q ->
  let n := List.length (sleeps (log (snd exec))) in
  (n <= Z.to_nat attempts)%nat
  /\ (n <= 1024)%nat
  /\ sleeps (log (snd exec))
     = map (fun i => py_min (delay * Qpower 2 (Z.of_nat i)) max_delay)
         (seq 0 n).
Proof.
  intros Hj.
  destruct execute_command_ending as (us & Hlen & Hm & _ & Hs & _).
  cbv zeta. rewrite Hs, length_map, length_combine_seq.
  split; [exact Hlen|]. split; [exact Hm|].
  assert (Hseq : map fst (combine (seq 0 (List.length us)) us)
                 = seq 0 (List.length us)).
  { rewrite map_fst_combine. apply firstn_all2. rewrite length_seq. lia. }
  rewrite <- Hseq at 2. rewrite map_map. apply map_ext.
  intros (i, u). simpl fst. simpl snd.
  unfold sleep_time. apply Qle_bool_iff in Hj. rewrite Hj. simpl negb. cbv iota.
  replace (Z.of_nat (S i) - 1) with (Z.of_nat i) by lia. reflexivity.
Qed.

End RunEndings.

(** ** The sleeps of a run *)

(** X1. In every run of [execute_command] without jitter, the [i]-th sleep
    (counted from 0) lasts [min(delay * 2 ** i, max_delay)]; there are at
    most [attempts] sleeps. *)
Theorem X1_sleep_schedule
    (py_eval : Eval)
    (proc : nat -> list string -> Q -> Result CompletedProcess)
    (rnd : nat -> Q) (command : list string) (condition : string)
    (attempts : Z) (delay backoff max_delay jitter timeout : Q) :
  (jitter <= 0)%Q ->
  let r := execute_command py_eval proc rnd command condition attempts
             delay backoff max_delay jitter timeout initial_state in
  let n := List.length (sleeps (log (snd r))) in
  (n <= Z.to_nat attempts)%nat
  /\ sleeps (log (snd r))
     = map (fun i => py_min (delay * Qpower 2 (Z.of_nat i)) max_delay)
         (seq 0 n).
Proof.
  intros Hj r n.
  destruct (execute_command_sleeps py_eval proc rnd command condition attempts
              delay backoff max_delay jitter timeout Hj) as (Hn & _ & Hs).
  split; [exact Hn | exact Hs].
Qed.

(** An instance of X1: [-a 4 -d 1 -m 5] and a command that always fails
    sleep 1, 2, 4 and 5 seconds. *)
Lemma X1_sleep_schedule_witness :
  let r := execute_command fragment_eval
             (always_completes 1 EmptyString EmptyString) no_randomness
             ["false"] "False" 4 1 2 5 0 10 initial_state in
  sleeps (log (snd r))
  = map (fun i => py_min (1 * Qpower 2 (Z.of_nat i)) 5)
      (seq 0 (List.length (sleeps (log (snd r))))).
Proof.
  apply (X1_sleep_schedule fragment_eval
           (always_completes 1 EmptyString EmptyString) no_randomness
           ["false"] "False" 4 1 2 5 0 10).
  unfold Qle; simpl; lia.
Defined.

(** X2. Without jitter, no sleep of a run is longer than [max_delay],
    whatever the initial delay and the number of attempts. *)
Theorem X2_sleep_is_capped
    (py_eval : Eval)
    (proc : nat -> list string -> Q -> Result CompletedProcess)
    (rnd : nat -> Q) (command : list string) (condition : string)
    (attempts : Z) (delay backoff max_delay jitter timeout : Q) :
  (jitter <= 0)%Q ->
  let r := execute_command py_eval proc rnd command condition attempts
             delay backoff max_delay jitter timeout initial_state in
  Forall (fun s => (s <= max_delay)%Q) (sleeps (log (snd r))).
Proof.
  intros Hj r.
  destruct (execute_command_sleeps py_eval proc rnd command condition attempts
              delay backoff max_delay jitter timeout Hj) as (_ & _ & Hs).
  subst r. rewrite Hs. apply Forall_forall. intros s Hin.
  apply in_map_iff in Hin. destruct Hin as (i & <- & _).
  apply py_min_le_r.
Qed.

(** An instance of X2: a command that always fails, five attempts and a cap
    of 3 seconds. *)
Lemma X2_sleep_is_capped_witness :
  Forall (fun s => (s <= 3)%Q)
    (sleeps (log (snd (execute_command fragment_eval
                         (always_completes 1 EmptyString EmptyString)
                         no_randomness ["false"] "False" 5 1 2 3 0 10
                         initial_state)))).
Proof.
  apply (X2_sleep_is_capped fragment_eval
           (always_completes 1 EmptyString EmptyString) no_randomness
           ["false"] "False" 5 1 2 3 0 10).
  unfold Qle; simpl; lia.
Defined.

Lemma Qpower_2_succ (i : nat) :
  (Qpower 2 (Z.of_nat (S i)) == 2 * Qpower 2 (Z.of_nat i))%Q.
Proof.
  rewrite Nat2Z.inj_succ. unfold Z.succ.
  rewrite Qpower_plus by discriminate. simpl. ring.
Qed.

(** X3. Without jitter and with a non-negative initial delay, the sleeps of
    a run never shrink: each sleep is at least as long as the one before,
    and is either twice as long or the cap. *)
Theorem X3_backoff_growth
    (py_eval : Eval)
    (proc : nat -> list string -> Q -> Result CompletedProcess)
    (rnd : nat -> Q) (command : list string) (condition : string)
    (attempts : Z) (delay backoff max_delay jitter timeout : Q)
    (i : nat) (s s' : Q) :
  (0 <= delay)%Q -> (jitter <= 0)%Q ->
  let r := execute_command py_eval proc rnd command condition attempts
             delay backoff max_delay jitter timeout initial_state in
  nth_error (sleeps (log (snd r))) i = Some s ->
  nth_error (sleeps (log (snd r))) (S i) = Some s' ->
  (s <= s')%Q /\ (s' == 2 * s \/ s' == max_delay)%Q.
Proof.
  intros Hd Hj r.
  destruct (execute_command_sleeps py_eval proc rnd command condition attempts
              delay backoff max_delay jitter timeout Hj) as (_ & _ & Hs).
  subst r. rewrite Hs, !nth_error_map, !nth_error_seq.
  destruct (i <? _)%nat; [|discriminate].
  destruct (S i <? _)%nat; [|discriminate].
  simpl. intros H H'. inversion H. inversion H'. clear H H' H1 H2.
  rewrite !py_min_Qmin.
  pose proof (Qpower_2_succ i) as Hp.
  assert (H0 : (0 < Qpower 2 (Z.of_nat i))%Q) by (apply Qpower_0_lt; reflexivity).
  assert (Hle : (delay * Qpower 2 (Z.of_nat i)
                 <= delay * Qpower 2 (Z.of_nat (S i)))%Q).
  { rewrite Hp. nra. }
  split.
  - apply Q.min_le_compat_r. exact Hle.
  - destruct (Qlt_le_dec max_delay (delay * Qpower 2 (Z.of_nat (S i))))
      as [L|L].
    + right. apply Q.min_r. apply Qlt_le_weak. exact L.
    + left. rewrite (Q.min_l _ _ L).
      rewrite Q.min_l by (eapply Qle_trans; [exact Hle | exact L]).
      rewrite Hp. ring.
Qed.

(** An instance of X3: the first two sleeps with [-d 1 -m 30]. *)
Lemma X3_backoff_growth_witness :
  (1 <= 2)%Q /\ (2 == 2 * 1 \/ 2 == 30)%Q.
Proof.
  apply (X3_backoff_growth fragment_eval
           (always_completes 1 EmptyString EmptyString) no_randomness
           ["false"] "False" 3 1 2 30 0 10 0 1 2).
  - unfold Qle; simpl; lia.
  - unfold Qle; simpl; lia.
  - reflexivity.
  - reflexivity.
Defined.

Lemma Qsum_bound (l : list Q) (B : Q) :
  Forall (fun s => (s <= B)%Q) l ->
  (Qsum l <= inject_Z (Z.of_nat (List.length l)) * B)%Q.
Proof.
  induction 1 as [|s l Hs _ IH].
  - simpl. change (inject_Z 0) with 0%Q. lra.
  - change (Qsum (s :: l)) with (s + Qsum l)%Q.
    change (List.length (s :: l)) with (S (List.length l)).
    rewrite Nat2Z.inj_succ. unfold Z.succ. rewrite inject_Z_plus.
    change (inject_Z 1) with 1%Q. lra.
Qed.

(** X9. Without jitter and with a non-negative cap, the time a run spends
    sleeping is at most [attempts * max_delay], whatever the initial delay
    and whatever the command does. *)
Theorem X9_total_sleep_is_bounded
    (py_eval : Eval)
    (proc : nat -> list string -> Q -> Result CompletedProcess)
    (rnd : nat -> Q) (command : list string) (condition : string)
    (attempts : Z) (delay backoff max_delay jitter timeout : Q) :
  0 <= attempts ->
  (0 <= max_delay)%Q -> (jitter <= 0)%Q ->
  let r := execute_command py_eval proc rnd command condition attempts
             delay backoff max_delay jitter timeout initial_state in
  (Qsum (sleeps (log (snd r))) <= inject_Z attempts * max_delay)%Q.
Proof.
  intros Ha Hm Hj r.
  destruct (execute_command_sleeps py_eval proc rnd command condition attempts
              delay backoff max_delay jitter timeout Hj) as (Hn & _ & Hs).
  fold r in Hn, Hs.
  assert (Hall : Forall (fun s => (s <= max_delay)%Q) (sleeps (log (snd r)))).
  { rewrite Hs. apply Forall_forall. intros s Hin.
    apply in_map_iff in Hin. destruct Hin as (i & <- & _).
    apply py_min_le_r. }
  apply Qsum_bound in Hall.
  assert (Hcount : (inject_Z (Z.of_nat (List.length (sleeps (log (snd r)))))
                    <= inject_Z attempts)%Q).
  { rewrite <- Zle_Qle. lia. }
  assert (Hpos : (0 <= inject_Z (Z.of_nat (List.length (sleeps (log (snd r))))))%Q).
  { change 0%Q with (inject_Z 0). rewrite <- Zle_Qle. lia. }
  nra.
Qed.

(** An instance of X9: five failed attempts with a cap of 3 seconds sleep at
    most 15 seconds in all. *)
Lemma X9_total_sleep_is_bounded_witness :
  (Qsum (sleeps (log (snd (execute_command fragment_eval
                             (always_completes 1 EmptyString EmptyString)
                             no_randomness ["false"] "False" 5 1 2 3 0 10
                             initial_state))))
   <= inject_Z 5 * 3)%Q.
Proof.
  apply (X9_total_sleep_is_bounded fragment_eval
           (always_completes 1 EmptyString EmptyString) no_randomness
           ["false"] "False" 5 1 2 3 0 10).
  - lia.
  - unfold Qle; simpl; lia.
  - unfold Qle; simpl; lia.
Defined.

(** X10. When the cap is not above a non-negative initial delay, and there is
    no jitter, every sleep of a run lasts exactly [max_delay]: the delay is
    capped from the first attempt on. *)
Theorem X10_cap_below_delay
    (py_eval : Eval)
    (proc : nat -> list string -> Q -> Result CompletedProcess)
    (rnd : nat -> Q) (command : list string) (condition : string)
    (attempts : Z) (delay backoff max_delay jitter timeout : Q) :
  (0 <= delay)%Q -> (max_delay <= delay)%Q -> (jitter <= 0)%Q ->
  let r := execute_command py_eval proc rnd command condition attempts
             delay backoff max_delay jitter timeout initial_state in
  Forall (fun s => (s == max_delay)%Q) (sleeps (log (snd r))).
Proof.
  intros Hd Hm Hj r.
  destruct (execute_command_sleeps py_eval proc rnd command condition attempts
              delay backoff max_delay jitter timeout Hj) as (_ & _ & Hs).
  fold r in Hs. rewrite Hs. apply Forall_forall. intros s Hin.
  apply in_map_iff in Hin. destruct Hin as (i & <- & _).
  rewrite py_min_Qmin. apply Q.min_r.
  assert (Hpow : (Qpower 2 0 <= Qpower 2 (Z.of_nat i))%Q).
  { apply Qpower_le_compat_l; [lia | unfold Qle; simpl; lia]. }
  change (Qpower 2 0) with 1%Q in Hpow. nra.
Qed.

(** An instance of X10: [-d 5 -m 2]. *)
Lemma X10_cap_below_delay_witness :
  Forall (fun s => (s == 2)%Q)
    (sleeps (log (snd (execute_command fragment_eval
                         (always_completes 1 EmptyString EmptyString)
                         no_randomness ["false"] "False" 4 5 2 2 0 10
                         initial_state)))).
Proof.
  apply (X10_cap_below_delay fragment_eval
           (always_completes 1 EmptyString EmptyString) no_randomness
           ["false"] "False" 4 5 2 2 0 10).
  - unfold Qle; simpl; lia.
  - unfold Qle; simpl; lia.
  - unfold Qle; simpl; lia.
Defined.

(** ** How a run ends *)


(** X7. One sleep follows every invocation except the one that satisfies the
    predicate: a run that returns [False] has slept as many times as it has
    invoked the command, the last invocation included; a run that returns
    [True], or that is ended by an exception, has slept once less. *)
Theorem X7_sleeps_and_invocations
    (py_eval : Eval)
    (proc : nat -> list string -> Q -> Result CompletedProcess)
    (rnd : nat -> Q) (command : list string) (condition : string)
    (attempts : Z) (delay backoff max_delay jitter timeout : Q) :
  let r := execute_command py_eval proc rnd command condition attempts
             delay backoff max_delay jitter timeout initial_state in
  invocations (log (snd r))
  = match fst r with
    | Normal false => List.length (sleeps (log (snd r)))
    | _ => S (List.length (sleeps (log (snd r))))
    end.
Proof.
  intros r. subst r.
  destruct (execute_command_ending py_eval proc rnd command condition attempts
              delay backoff max_delay jitter timeout)
    as (us & _ & _ & _ & Hs & H).
  rewrite Hs, length_map, length_combine_seq.
  destruct (fst (execute_command _ _ _ _ _ _ _ _ _ _ _ initial_state))
    as [[|]|e]; destruct H as (Hn & _); exact Hn.
Qed.



(** ** When the command cannot be run *)

Section NeverRuns.

Variables py_eval1 py_eval2 : Eval.
Variable proc : nat -> list string -> Q -> Result CompletedProcess.
Variable rnd : nat -> Q.
Variables (command : list string) (condition1 condition2 : string).
Variables (attempts : Z) (delay backoff max_delay jitter timeout : Q).

Hypothesis never_completes :
  forall n, exists e, proc n command timeout = Raise e.

Lemma retry_loop_never_completes (todo : list Z) : forall st,
  retry_loop py_eval1 proc rnd todo command condition1 attempts
    delay backoff max_delay jitter timeout st
  = retry_loop py_eval2 proc rnd todo command condition2 attempts
      delay backoff max_delay jitter timeout st.
Proof.
  induction todo as [|attempt todo IH]; intros st.
  - reflexivity.
  - simpl. rewrite !bind_unfold, !attempt_once_events.
    destruct (never_completes (calls st)) as (e & ->).
    unfold attempt_result, attempt_events, draws_in, verdict_in.
    destruct (verdict_of (inr e)); try reflexivity.
    rewrite !bind_unfold.
    match goal with |- context [backoff_sleep rnd attempt delay max_delay jitter ?s] =>
      destruct (backoff_sleep rnd attempt delay max_delay jitter s)
        as [[[]|x] s'] end.
    + apply IH.
    + reflexivity.
Qed.

End NeverRuns.

(** X11. The condition is evaluated only on the output of a command that has
    completed: when every invocation times out or cannot be spawned, the run
    is the same whatever the condition and whatever [eval] would do with
    it. *)
Theorem X11_condition_needs_a_completed_command
    (py_eval1 py_eval2 : Eval)
    (proc : nat -> list string -> Q -> Result CompletedProcess)
    (rnd : nat -> Q) (command : list string) (condition1 condition2 : string)
    (attempts : Z) (delay backoff max_delay jitter timeout : Q) (st : State) :
  (forall n, exists e, proc n command timeout = Raise e) ->
  execute_command py_eval1 proc rnd command condition1 attempts
    delay backoff max_delay jitter timeout st
  = execute_command py_eval2 proc rnd command condition2 attempts
      delay backoff max_delay jitter timeout st.
Proof.
  intros H. unfold execute_command. apply retry_loop_never_completes. exact H.
Qed.

(** An instance of X11: a command that always times out, with a condition
    that would print and one that would not. *)
Lemma X11_condition_needs_a_completed_command_witness :
  execute_command fragment_eval always_times_out no_randomness
    ["job"] "print(stdout)" 3 1 2 30 0 10 initial_state
  = execute_command fragment_eval always_times_out no_randomness
      ["job"] "True" 3 1 2 30 0 10 initial_state.
Proof.
  apply (X11_condition_needs_a_completed_command fragment_eval fragment_eval
           always_times_out no_randomness
           ["job"] "print(stdout)" "True" 3 1 2 30 0 10 initial_state).
  intros n. exists TimeoutExpired. reflexivity.
Defined.
